(** * vue-masonry-css: the layout-resolution core of [src/index.js]

    A shallow embedding of the three pieces of [src/index.js] that carry the
    layout logic, and the properties of them that the specification states:

    - [breakpointValue]   (the "BreakpointResolver"),
    - [getShortestColumnIndex] and [_getChildItemsInColumnsArray]
      (the "ColumnDistributor"),
    - [reCalculate], [_reCalculateColumnCount], [_reCalculateGutterSize]
      (the "LayoutController").

    Modelling conventions.

    - A JavaScript number is [NaN], an infinity or a finite number; a finite
      number is the rational it denotes.  The code only compares numbers,
      takes a maximum and adds integer heights, so no rounding is involved.
      Outside the model: the rounding of literals that no double holds
      exactly (integers beyond 2^53, most decimal fractions) and the
      exponent notation of the property key of an integer from 10^21 on;
      [-0] is identified with [0], no operation used here telling them
      apart.
    - The values a [cols] / [gutter] prop carries are primitives and plain
      data objects (own enumerable data properties, prototype
      [Object.prototype]); an object is the list of its entries in [for-in]
      order, a property read takes the first entry of that name.
    - Strings are ASCII.
    - A [throw] is an explicit outcome. *)

From Stdlib Require Import ZArith QArith Qabs Qreduction String Ascii List Lia.
From Stdlib Require Import DecimalString DecimalZ DecimalPos.
From stdpp Require Import base option list.

Set Warnings "-register-all".
Local Open Scope string_scope.
Local Open Scope Z_scope.
Local Open Scope list_scope.

(** ** Errors and fallible computations *)

Inductive error := TypeError | RangeError | ReferenceError.

Inductive result (A : Type) :=
| Ok (a : A)
| Throw (e : error).
Arguments Ok {A} a.
Arguments Throw {A} e.

#[global] Instance result_ret : MRet result := fun A a => Ok a.
#[global] Instance result_bind : MBind result := fun A B f m =>
  match m with
  | Ok a => f a
  | Throw e => Throw e
  end.
#[global] Instance result_fmap : FMap result := fun A B f m =>
  match m with
  | Ok a => Ok (f a)
  | Throw e => Throw e
  end.

(** ** Numbers *)

Inductive num :=
| NaN
| PInf
| NInf
| Fin (q : Q).

Definition num_of_Z (z : Z) : num := Fin (inject_Z z).

(** [a < b] and [a <= b] of JavaScript: false as soon as one side is [NaN]. *)
Definition num_lt (a b : num) : bool :=
  match a, b with
  | NaN, _ | _, NaN => false
  | _, NInf => false
  | NInf, _ => true
  | PInf, _ => false
  | Fin _, PInf => true
  | Fin p, Fin q => negb (Qle_bool q p)
  end.

Definition num_le (a b : num) : bool :=
  match a, b with
  | NaN, _ | _, NaN => false
  | NInf, _ => true
  | _, PInf => true
  | _, NInf => false
  | PInf, _ => false
  | Fin p, Fin q => Qle_bool p q
  end.

(** [a === b] on numbers. *)
Definition num_strict_eq (a b : num) : bool :=
  match a, b with
  | PInf, PInf | NInf, NInf => true
  | Fin p, Fin q => Qeq_bool p q
  | _, _ => false
  end.

(** A number is falsy when it is [NaN] or zero. *)
Definition num_truthy (n : num) : bool :=
  match n with
  | NaN => false
  | Fin q => negb (Qeq_bool q 0)
  | _ => true
  end.

(** [x || d] where [x] is a number. *)
Definition num_or (x d : num) : num := if num_truthy x then x else d.

(** [Math.max(a, b)]. *)
Definition Math_max (a b : num) : num :=
  match a, b with
  | NaN, _ | _, NaN => NaN
  | PInf, _ | _, PInf => PInf
  | NInf, x | x, NInf => x
  | Fin p, Fin q => if Qle_bool p q then Fin q else Fin p
  end.

(** The integers are the numbers [parseInt] yields; [None] is [NaN]. *)
Abbreviation pint := (option Z).

Definition num_of_pint (p : pint) : num :=
  match p with
  | Some z => num_of_Z z
  | None => NaN
  end.

Definition isNaN (p : pint) : bool :=
  match p with
  | Some _ => false
  | None => true
  end.

(** ** Values *)

Inductive value :=
| VUndef
| VNull
| VBool (b : bool)
| VNum (n : num)
| VStr (s : string)
| VObj (o : list (string * value)).

Abbreviation object := (list (string * value)).

Definition truthy (v : value) : bool :=
  match v with
  | VUndef | VNull => false
  | VBool b => b
  | VNum n => num_truthy n
  | VStr s => negb (String.eqb s "")
  | VObj _ => true
  end.

(** [v || d]. *)
Definition value_or (v d : value) : value := if truthy v then v else d.

(** Own property lookup. *)
Fixpoint assoc (k : string) (o : object) : option value :=
  match o with
  | [] => None
  | (k', v) :: o' => if String.eqb k k' then Some v else assoc k o'
  end.

(** [o[k]] on an object: [undefined] when the property is absent. *)
Definition get (k : string) (o : object) : value :=
  match assoc k o with
  | Some v => v
  | None => VUndef
  end.

(** The keys of [for (let k in o)], in order. *)
Definition keys (o : object) : list string := map fst o.

(** ** Parsing: [parseInt] *)

Definition is_ws (c : ascii) : bool :=
  let n := nat_of_ascii c in
  ((9 <=? n)%nat && (n <=? 13)%nat) || (n =? 32)%nat.

Fixpoint skip_ws (s : string) : string :=
  match s with
  | String c s' => if is_ws c then skip_ws s' else s
  | EmptyString => s
  end.

Fixpoint all_ws (s : string) : bool :=
  match s with
  | String c s' => is_ws c && all_ws s'
  | EmptyString => true
  end.

(** The value of [c] as a digit, whatever the radix (at most 16). *)
Definition digit_val (c : ascii) : option Z :=
  let n := Z.of_nat (nat_of_ascii c) in
  if (48 <=? n) && (n <=? 57) then Some (n - 48)
  else if (97 <=? n) && (n <=? 102) then Some (n - 87)
  else if (65 <=? n) && (n <=? 70) then Some (n - 55)
  else None.

Definition digit_of (radix : Z) (c : ascii) : option Z :=
  match digit_val c with
  | Some d => if d <? radix then Some d else None
  | None => None
  end.

(** Splits [s] into its longest prefix of radix-[radix] digits and the rest. *)
Fixpoint take_digits (radix : Z) (s : string) : list Z * string :=
  match s with
  | String c s' =>
      match digit_of radix c with
      | Some d => let '(ds, r) := take_digits radix s' in (d :: ds, r)
      | None => ([], s)
      end
  | EmptyString => ([], s)
  end.

Definition int_of_digits (radix : Z) (ds : list Z) : Z :=
  fold_left (fun a d => radix * a + d) ds 0.

(** A leading [+] or [-]: the sign (true when negative) and the rest. *)
Definition strip_sign (s : string) : bool * string :=
  match s with
  | String "-" s' => (true, s')
  | String "+" s' => (false, s')
  | _ => (false, s)
  end.

Definition apply_sign (neg : bool) (z : Z) : Z := if neg then - z else z.

(** A leading [0x] or [0X] switches [parseInt] to radix 16. *)
Definition strip_hex (s : string) : Z * string :=
  match s with
  | String "0" (String "x" s') | String "0" (String "X" s') => (16, s')
  | _ => (10, s)
  end.

(** [parseInt(s)] for a string [s], no radix given. *)
Definition parseInt_str (s : string) : pint :=
  let '(neg, s1) := strip_sign (skip_ws s) in
  let '(radix, s2) := strip_hex s1 in
  match fst (take_digits radix s2) with
  | [] => None
  | ds => Some (apply_sign neg (int_of_digits radix ds))
  end.

(** [parseInt(x)] for a number [x] goes through [ToString(x)], which is in
    fixed notation for 0 and when 10^-6 <= |x| < 10^21, so that the digits
    before the point are read; otherwise it is in exponent notation and only the
    leading digit is read. *)
Definition Qtrunc (q : Q) : Z := Z.quot (Qnum q) (Zpos (Qden q)).

Definition fixed_notation (q : Q) : bool :=
  let a := Qabs q in
  Qeq_bool a 0 || (Qle_bool (1 # 1000000) a && negb (Qle_bool (inject_Z (10 ^ 21)) a)).

Fixpoint lead_big (fuel : nat) (n : Z) : Z :=
  match fuel with
  | O => n
  | S f => if n <? 10 then n else lead_big f (n / 10)
  end.

Fixpoint lead_small (fuel : nat) (a b : Z) : Z :=
  match fuel with
  | O => 0
  | S f => if b <=? a then a / b else lead_small f (10 * a) b
  end.

Definition lead_digit (q : Q) : Z :=
  let a := Z.abs (Qnum q) in
  let b := Zpos (Qden q) in
  if b <=? a then lead_big (S (Z.to_nat (Z.log2 a))) (a / b)
  else lead_small (Z.to_nat (Z.log2 b) + 2) a b.

Definition parseInt_num (n : num) : pint :=
  match n with
  | Fin q =>
      Some (if fixed_notation q then Qtrunc q
            else apply_sign (Qnum q <? 0) (lead_digit q))
  | _ => None
  end.

(** [ToString(o)] for an object.  A plain object answers
    through [Object.prototype.toString]; an own data property [toString]
    shadows it and, not being callable, makes the conversion fail. *)
Definition ToString_obj (o : object) : result string :=
  match assoc "toString" o with
  | Some _ => Throw TypeError
  | None => Ok "[object Object]"
  end.

Definition parseInt (v : value) : result pint :=
  match v with
  | VNum n => Ok (parseInt_num n)
  | VStr s => Ok (parseInt_str s)
  | VUndef => Ok (parseInt_str "undefined")
  | VNull => Ok (parseInt_str "null")
  | VBool b => Ok (parseInt_str (if b then "true" else "false"))
  | VObj o => s ← ToString_obj o; Ok (parseInt_str s)
  end.

(** The decimal numeral of an integer: ["300"], ["-5"], ["0"]. *)
Definition numeral (z : Z) : string := NilZero.string_of_int (Z.to_int z).

(** The property key a [parseInt] result denotes, as in [mixed[breakpoint]]. *)
Definition key_of_pint (p : pint) : string :=
  match p with
  | Some z => numeral z
  | None => "NaN"
  end.

(** ** Conversion to a number: [Number(v)] *)

Definition radix_prefix (s : string) : option (Z * string) :=
  match s with
  | String "0" (String "x" s') | String "0" (String "X" s') => Some (16, s')
  | String "0" (String "o" s') | String "0" (String "O" s') => Some (8, s')
  | String "0" (String "b" s') | String "0" (String "B" s') => Some (2, s')
  | _ => None
  end.

Definition strip_Infinity (s : string) : option string :=
  if String.prefix "Infinity" s then Some (String.substring 8 (String.length s - 8)%nat s)
  else None.

(** The fraction after a decimal point, if there is one. *)
Definition take_fraction (s : string) : list Z * string :=
  match s with
  | String "." s' => take_digits 10 s'
  | _ => ([], s)
  end.

(** The exponent part, if there is one: [None] when an [e] is followed by
    no digit. *)
Definition take_exponent (s : string) : option (Z * string) :=
  match s with
  | String "e" s' | String "E" s' =>
      let '(neg, s1) := strip_sign s' in
      match take_digits 10 s1 with
      | ([], _) => None
      | (ds, r) => Some (apply_sign neg (int_of_digits 10 ds), r)
      end
  | _ => Some (0, s)
  end.

Definition decimal_literal (neg : bool) (s : string) : num :=
  let '(ds1, r1) := take_digits 10 s in
  let '(ds2, r2) := take_fraction r1 in
  match (ds1 ++ ds2)%list with
  | [] => NaN
  | ds =>
      match take_exponent r2 with
      | Some (e, r3) =>
          if all_ws r3
          then Fin (Qred (inject_Z (apply_sign neg (int_of_digits 10 ds))
                          * Qpower 10 (e - Z.of_nat (length ds2))))
          else NaN
      | None => NaN
      end
  end.

(** [Number(s)] for a string [s]. *)
Definition StringToNumber (s : string) : num :=
  let s1 := skip_ws s in
  match s1 with
  | EmptyString => num_of_Z 0
  | _ =>
      match radix_prefix s1 with
      | Some (r, s2) =>
          match take_digits r s2 with
          | ([], _) => NaN
          | (ds, rest) => if all_ws rest then num_of_Z (int_of_digits r ds) else NaN
          end
      | None =>
          let '(neg, s2) := strip_sign s1 in
          match strip_Infinity s2 with
          | Some rest => if all_ws rest then (if neg then NInf else PInf) else NaN
          | None => decimal_literal neg s2
          end
      end
  end.

(** [Number(v)].  An object is first converted to a primitive, which fails
    under the same condition as for [ToString_obj]. *)
Definition Number (v : value) : result num :=
  match v with
  | VUndef => Ok NaN
  | VNull => Ok (num_of_Z 0)
  | VBool b => Ok (num_of_Z (if b then 1 else 0))
  | VNum n => Ok n
  | VStr s => Ok (StringToNumber s)
  | VObj o => s ← ToString_obj o; Ok (StringToNumber s)
  end.

(** ** [breakpointValue]: the value of a [cols] / [gutter] prop at a width *)

(** One turn of [for (let k in mixed)], on the pair
    [(matchedBreakpoint, matchedValue)]. *)
Definition breakpoint_step (mixed : object) (windowWidth : num)
    (acc : num * value) (k : string) : result (num * value) :=
  let '(matchedBreakpoint, matchedValue) := acc in
  let breakpoint := parseInt_str k in
  let breakpointValRaw := get (key_of_pint breakpoint) mixed in
  breakpointVal ← parseInt breakpointValRaw;
  if isNaN breakpoint || isNaN breakpointVal then Ok acc
  else
    let isNewBreakpoint :=
      num_le windowWidth (num_of_pint breakpoint)
      && num_lt (num_of_pint breakpoint) matchedBreakpoint in
    if isNewBreakpoint then Ok (num_of_pint breakpoint, breakpointValRaw)
    else Ok acc.

Fixpoint breakpoint_loop (mixed : object) (windowWidth : num)
    (ks : list string) (acc : num * value) : result (num * value) :=
  match ks with
  | [] => Ok acc
  | k :: ks' =>
      acc' ← breakpoint_step mixed windowWidth acc k;
      breakpoint_loop mixed windowWidth ks' acc'
  end.

Definition breakpointValue (mixed : value) (windowWidth : num) : result value :=
  valueAsNum ← parseInt mixed;
  if num_lt (num_of_Z (-1)) (num_of_pint valueAsNum) then Ok mixed
  else
    match mixed with
    | VObj o =>
        let matchedBreakpoint := PInf in
        let matchedValue := value_or (get "default" o) (VNum (num_of_Z 0)) in
        acc ← breakpoint_loop o windowWidth (keys o) (matchedBreakpoint, matchedValue);
        Ok (snd acc)
    | VNull => Throw TypeError (* [typeof null] is ['object']; [null.default] *)
    | _ => Ok (VNum (num_of_Z 0)) (* [typeof mixed !== 'object'] *)
    end.

(** ** The component: props, data and the host *)

(** A virtual node: an identity, [tag], the [offsetHeight] of [elm] once the
    node is mounted (an integer attribute of the element), and
    [componentOptions] with its [tag] and [children]. *)
Inductive vnode :=
| VNode (vkey : nat) (tag : option string) (elm : option Z)
    (componentOptions : option (option string * option (list vnode))).

Definition vnode_tag (v : vnode) : option string :=
  let 'VNode _ t _ _ := v in t.
Definition vnode_elm (v : vnode) : option Z :=
  let 'VNode _ _ e _ := v in e.
Definition vnode_componentOptions (v : vnode)
    : option (option string * option (list vnode)) :=
  let 'VNode _ _ _ co := v in co.

(** The reactive data fields an assignment can touch. *)
Inductive field := FdisplayColumns | FdisplayGutter.

Record component := Component {
  cols : value;
  gutter : value;
  fillGaps : bool;
  slots_default : option (list vnode);
  displayColumns : num;
  displayGutter : value;
  windowWidth : option num;
  (** the assignments made to reactive data so far, latest first: a new
      render is asked for through such an assignment only *)
  assigned : list field
}.

(** [data ()] on top of the props and the slot content. *)
Definition data (cols gutter : value) (fillGaps : bool)
    (slots_default : option (list vnode)) : component :=
  {| cols := cols; gutter := gutter; fillGaps := fillGaps;
     slots_default := slots_default;
     displayColumns := num_of_Z 2; displayGutter := VNum (num_of_Z 0);
     windowWidth := None; assigned := [] |}.

Definition set_windowWidth (w : num) (c : component) : component :=
  {| cols := cols c; gutter := gutter c; fillGaps := fillGaps c;
     slots_default := slots_default c;
     displayColumns := displayColumns c; displayGutter := displayGutter c;
     windowWidth := Some w; assigned := assigned c |}.

Definition set_displayColumns (n : num) (c : component) : component :=
  {| cols := cols c; gutter := gutter c; fillGaps := fillGaps c;
     slots_default := slots_default c;
     displayColumns := n; displayGutter := displayGutter c;
     windowWidth := windowWidth c; assigned := FdisplayColumns :: assigned c |}.

Definition set_displayGutter (g : value) (c : component) : component :=
  {| cols := cols c; gutter := gutter c; fillGaps := fillGaps c;
     slots_default := slots_default c;
     displayColumns := displayColumns c; displayGutter := g;
     windowWidth := windowWidth c; assigned := FdisplayGutter :: assigned c |}.

(** The global [window]: not bound at all, bound to a falsy value, or an
    object with its [innerWidth] ([NaN] also stands for an [innerWidth] that
    is [undefined]: both are falsy and nothing else is done with it). *)
Inductive host :=
| WindowUnbound
| WindowFalsy
| Window (innerWidth : num).

(** What a method leaves behind: the component, after a normal return or at
    the point where the exception left it. *)
Inductive outcome :=
| Done (c : component)
| Raised (e : error) (c : component).

(** ** The controller: [reCalculate] *)

Definition _reCalculateGutterSize (c : component) (windowWidth : num) : outcome :=
  match breakpointValue (gutter c) windowWidth with
  | Ok g => Done (set_displayGutter g c)
  | Throw e => Raised e c
  end.

Definition _reCalculateColumnCount (c : component) (windowWidth : num) : outcome :=
  match breakpointValue (cols c) windowWidth ≫= Number with
  | Ok n => Done (set_displayColumns (Math_max (num_of_Z 1) (num_or n (num_of_Z 0))) c)
  | Throw e => Raised e c
  end.

(** [(window ? window.innerWidth : null) || Infinity] *)
Definition current_width (h : host) : result num :=
  match h with
  | WindowUnbound => Throw ReferenceError
  | WindowFalsy => Ok PInf
  | Window innerWidth => Ok (num_or innerWidth PInf)
  end.

(** [previousWindowWidth === this.windowWidth], the left side being
    [undefined] before the first run. *)
Definition same_width (previous : option num) (w : num) : bool :=
  match previous with
  | Some p => num_strict_eq p w
  | None => false
  end.

Definition reCalculate (h : host) (c : component) : outcome :=
  let previousWindowWidth := windowWidth c in
  match current_width h with
  | Throw e => Raised e c
  | Ok w =>
      let c := set_windowWidth w c in
      if same_width previousWindowWidth w then Done c
      else
        match _reCalculateColumnCount c w with
        | Done c => _reCalculateGutterSize c w
        | Raised e c => Raised e c
        end
  end.

(** ** The distributor: [_getChildItemsInColumnsArray] *)

Definition getShortestColumnIndex_step (trg : option (nat * Z))
    (srcIndex : nat) (srcHeight : Z) : option (nat * Z) :=
  match trg with
  | None => Some (srcIndex, srcHeight)
  | Some (trgIndex, trgHeight) =>
      if srcHeight <? trgHeight then Some (srcIndex, srcHeight) else trg
  end.

Fixpoint getShortestColumnIndex_loop (heights : list Z) (srcIndex : nat)
    (trg : option (nat * Z)) : option (nat * Z) :=
  match heights with
  | [] => trg
  | srcHeight :: rest =>
      getShortestColumnIndex_loop rest (S srcIndex)
        (getShortestColumnIndex_step trg srcIndex srcHeight)
  end.

(** [None] is [undefined], the answer for no column at all. *)
Definition getShortestColumnIndex (heights : list Z) : option nat :=
  fst <$> getShortestColumnIndex_loop heights 0%nat None.

(** The array [columns]: a hole or an element at each index below its
    length. *)
Abbreviation columns := (list (option (list vnode))).

Definition array_get {A} (i : nat) (a : list (option A)) : option A :=
  mjoin (a !! i).

(** [a[i] = x]: writing at or beyond the length extends the array, leaving
    holes in between. *)
Definition array_set {A} (i : nat) (x : A) (a : list (option A))
    : list (option A) :=
  if (i <? length a)%nat then <[i := Some x]> a
  else (a ++ replicate (i - length a)%nat None ++ [Some x])%list.

(** [a[i].push(x)], [a[i]] being an array. *)
Definition array_push {A} (i : nat) (x : A) (a : list (option (list A)))
    : list (option (list A)) :=
  alter (fmap (fun bucket => bucket ++ [x])%list) i a.

(** [new Array(n).fill(0)] for a number [n]: [n] has to be an array length. *)
Definition new_Array_fill0 (n : num) : result (list Z) :=
  match n with
  | Fin q =>
      let 'Qmake a b := Qred q in
      if (b =? 1)%positive && (0 <=? a) && (a <? 2 ^ 32)
      then Ok (replicate (Z.to_nat a) 0)
      else Throw RangeError
  | _ => Throw RangeError
  end.

(** [index % n], the length [n] of [heights] being [displayColumns]: the
    remainder by zero is [NaN], which is no index. *)
Definition index_mod (index n : nat) : option nat :=
  if (n =? 0)%nat then None else Some (index mod n)%nat.

Definition has_tag (child : vnode) : bool :=
  match vnode_tag child with
  | Some t => negb (String.eqb t "")
  | None => false
  end.

(** The callback of [vnodes.forEach], on the pair [(columns, heights)].  A
    column index that is no index ([NaN], [undefined]) names a property that
    is no element of either array. *)
Definition place (fillGaps : bool) (st : columns * list Z)
    (index : nat) (node : vnode) : columns * list Z :=
  let '(columns, heights) := st in
  let colIndex := index_mod index (length heights) in
  let '(colIndex, heights) :=
    match fillGaps, vnode_elm node with
    | true, Some offsetHeight =>
        let colIndex := getShortestColumnIndex heights in
        (colIndex,
         match colIndex with
         | Some j => alter (fun h => h + offsetHeight) j heights
         | None => heights
         end)
    | _, _ => (colIndex, heights)
    end in
  match colIndex with
  | Some j =>
      let columns :=
        match array_get j columns with
        | None => array_set j [] columns
        | Some _ => columns
        end in
      (array_push j node columns, heights)
  | None => (columns, heights)
  end.

Fixpoint forEach_place (fillGaps : bool) (vnodes : list vnode) (index : nat)
    (st : columns * list Z) : columns * list Z :=
  match vnodes with
  | [] => st
  | node :: rest =>
      forEach_place fillGaps rest (S index) (place fillGaps st index node)
  end.

Definition is_transition_group (node : vnode) : bool :=
  match vnode_componentOptions node with
  | Some (Some t, _) => String.eqb t "transition-group"
  | _ => false
  end.

Definition componentOptions_children (node : vnode) : option (list vnode) :=
  match vnode_componentOptions node with
  | Some (_, children) => children
  | None => None
  end.

(** The body of the method from [const columns = []] on; [vnodes] is [None]
    when it is [undefined], on which [.filter] fails. *)
Definition distribute (displayColumns : num) (fillGaps : bool)
    (vnodes : option (list vnode)) : result (columns * list Z) :=
  heights ← new_Array_fill0 displayColumns;
  match vnodes with
  | Some vnodes =>
      Ok (forEach_place fillGaps (List.filter has_tag vnodes) 0%nat
            ([], heights))
  | None => Throw TypeError
  end.

(** The nodes the method distributes: the slot content, or the children of
    its first node when that is a [transition-group]. *)
Definition unwrap (vnodes : list vnode) : option (list vnode) :=
  match vnodes with
  | node :: _ =>
      if is_transition_group node then componentOptions_children node
      else Some vnodes
  | [] => Some vnodes
  end.

Definition _getChildItemsInColumnsArray (c : component) : result columns :=
  let vnodes := default [] (slots_default c) in
  fst <$> distribute (displayColumns c) (fillGaps c) (unwrap vnodes).

(** * Auxiliary notions used in the statements *)

(** The digits of a decimal numeral, most significant first. *)
Fixpoint udigits (d : Decimal.uint) : list Z :=
  match d with
  | Decimal.Nil => []
  | Decimal.D0 d => 0 :: udigits d
  | Decimal.D1 d => 1 :: udigits d
  | Decimal.D2 d => 2 :: udigits d
  | Decimal.D3 d => 3 :: udigits d
  | Decimal.D4 d => 4 :: udigits d
  | Decimal.D5 d => 5 :: udigits d
  | Decimal.D6 d => 6 :: udigits d
  | Decimal.D7 d => 7 :: udigits d
  | Decimal.D8 d => 8 :: udigits d
  | Decimal.D9 d => 9 :: udigits d
  end.

(** [parseInt(v)] and [Number(v)] complete unless [v] is an object with an
    own [toString] property. *)
Definition convertible (v : value) : bool :=
  match v with
  | VObj o => match assoc "toString" o with Some _ => false | None => true end
  | _ => true
  end.

(** A mapping all of whose conversions complete. *)
Definition plain_mapping (o : object) : bool :=
  convertible (VObj o) && forallb (fun kv => convertible kv.2) o.

(** [parseInt(v)] is a number. *)
Definition parses_num (v : value) : bool :=
  match parseInt v with
  | Ok (Some _) => true
  | _ => false
  end.

(** [matchedBreakpoint] is [Infinity] ([None]) or an integer. *)
Abbreviation bound := (option Z).

Definition num_of_bound (m : bound) : num :=
  match m with
  | Some b => num_of_Z b
  | None => PInf
  end.

(** [b < m]. *)
Definition below (b : Z) (m : bound) : bool :=
  match m with
  | Some m => b <? m
  | None => true
  end.

(** The entry the loop reads for the breakpoint [b], when it counts at width
    [W]: the one whose key is the numeral of [b], provided its value parses
    and [W <= b]. *)
Definition usable (o : object) (W : num) (b : Z) : option value :=
  match assoc (numeral b) o with
  | Some v => if parses_num v && num_le W (num_of_Z b) then Some v else None
  | None => None
  end.

(** One turn of the loop, as a choice: the key [k] replaces the accumulator
    when the integer it parses to is usable and below the bound. *)
Definition select (o : object) (W : num) (acc : bound * value) (k : string)
    : bound * value :=
  match parseInt_str k with
  | Some b =>
      match usable o W b with
      | Some v => if below b acc.1 then (Some b, v) else acc
      | None => acc
      end
  | None => acc
  end.

Definition lift_acc (acc : bound * value) : num * value :=
  (num_of_bound acc.1, acc.2).

(** The value a mapping falls back to: [mixed.default || 0]. *)
Definition default_or_zero (o : object) : value :=
  match assoc "default" o with
  | Some d => if truthy d then d else VNum (num_of_Z 0)
  | None => VNum (num_of_Z 0)
  end.

(** A computable form of "no usable breakpoint is smaller than [b]". *)
Definition least_usable (o : object) (W : num) (b : Z) : bool :=
  forallb (fun k =>
             match parseInt_str k with
             | Some b' =>
                 match usable o W b' with
                 | Some _ => b <=? b'
                 | None => true
                 end
             | None => true
             end) (keys o).

(** A keyed mapping. *)
Definition is_mapping (v : value) : bool :=
  match v with
  | VObj _ => true
  | _ => false
  end.

(** Neither a mapping nor [null]. *)
Definition is_primitive (v : value) : bool :=
  match v with
  | VObj _ | VNull => false
  | _ => true
  end.

(** The configured values on which resolution completes: everything but
    [null] and the objects some conversion of which fails. *)
Definition safe_config (v : value) : bool :=
  match v with
  | VNull => false
  | VObj o => plain_mapping o
  | _ => true
  end.

(** * The specification's statements that the code does not meet *)






(** What a run leaves behind. *)
Definition component_of (r : outcome) : component :=
  match r with
  | Done c | Raised _ c => c
  end.

(** ** The distribution, in the specification's words *)

(** [j] is the first index at which [hs] is minimal. *)
Definition is_first_min (hs : list Z) (j : nat) : Prop :=
  exists m, hs !! j = Some m
    /\ (forall i h, hs !! i = Some h -> m <= h)
    /\ (forall i h, (i < j)%nat -> hs !! i = Some h -> m < h).

(** The children at the positions [i] with [i mod n = j], in input order,
    [index] being the position of the head of [xs]. *)
Fixpoint every_nth (n j index : nat) (xs : list vnode) : list vnode :=
  match xs with
  | [] => []
  | x :: rest =>
      if (index mod n =? j)%nat then x :: every_nth n j (S index) rest
      else every_nth n j (S index) rest
  end.

(** Round-robin buckets: as many as there are children, up to [n]. *)
Definition round_robin (n : nat) (xs : list vnode) : columns :=
  map (fun j => Some (every_nth n j 0 xs)) (seq 0 (min (length xs) n)).

(** The number [dc] is the count [n]. *)
Definition column_count (dc : num) (n : nat) : Prop :=
  match dc with
  | Fin q => q == inject_Z (Z.of_nat n)
  | _ => False
  end.

(** "The sequence of column buckets returned by the distributor has length
    equal to columnCount", for the component [c] and the count [n]. *)
Definition spec_bucket_count (c : component) (n : nat) : Prop :=
  forall columns, _getChildItemsInColumnsArray c = Ok columns ->
                  length columns = n.

(** A tagged child without measured height, for the examples. *)
Definition child (key : nat) : vnode := VNode key (Some "div") None None.

(** A tagged child of measured height [h]. *)
Definition measured (key : nat) (h : Z) : vnode :=
  VNode key (Some "div") (Some h) None.

(** ** The callback of [forEach], read as a choice of column *)

(** The column the callback settles on for the child [x]. *)
Definition chosen_column (fillGaps : bool) (heights : list Z) (index : nat)
    (x : vnode) : option nat :=
  match fillGaps, vnode_elm x with
  | true, Some _ => getShortestColumnIndex heights
  | _, _ => index_mod index (length heights)
  end.

(** The accumulators once the callback has run for the child [x]. *)
Definition grown_heights (fillGaps : bool) (heights : list Z) (x : vnode)
    : list Z :=
  match fillGaps, vnode_elm x, getShortestColumnIndex heights with
  | true, Some h, Some j => alter (fun y => y + h) j heights
  | _, _, _ => heights
  end.

(** The columns chosen for the children [xs], the first of which has the
    position [index]. *)
Fixpoint assignment (fillGaps : bool) (heights : list Z) (index : nat)
    (xs : list vnode) : list (option nat) :=
  match xs with
  | [] => []
  | x :: rest =>
      chosen_column fillGaps heights index x
      :: assignment fillGaps (grown_heights fillGaps heights x) (S index) rest
  end.

(** The children that [a] sends to the column [j], in input order. *)
Fixpoint bucket (j : nat) (a : list (option nat)) (xs : list vnode)
    : list vnode :=
  match a, xs with
  | col :: a', x :: xs' =>
      if decide (col = Some j) then x :: bucket j a' xs' else bucket j a' xs'
  | _, _ => []
  end.

(** The element of [columns] at an index where it was [b0], after the
    children [l] were pushed there. *)
Definition extend (b0 : option (list vnode)) (l : list vnode)
    : option (list vnode) :=
  match l with
  | [] => b0
  | _ => Some (default [] b0 ++ l)
  end.

(** * Further notions: the resolver *)

(** The read the loop makes for the key [k] completes. *)
Definition read_completes (o : object) (k : string) : bool :=
  convertible (get (key_of_pint (parseInt_str k)) o).

(** * Further notions: the controller *)

(** New props arrive: the data of the component is kept. *)
Definition set_props (cols gutter : value) (fillGaps : bool)
    (slots_default : option (list vnode)) (c : component) : component :=
  {| cols := cols; gutter := gutter; fillGaps := fillGaps;
     slots_default := slots_default;
     displayColumns := displayColumns c; displayGutter := displayGutter c;
     windowWidth := windowWidth c; assigned := assigned c |}.

(** What happens to a mounted component: [reCalculate] runs on the host as
    it is then (after a tick or a resize), or the parent passes new props. *)
Inductive event :=
| Recalculate (h : host)
| NewProps (cols gutter : value) (fillGaps : bool)
    (slots_default : option (list vnode)).

Definition after_event (c : component) (e : event) : component :=
  match e with
  | Recalculate h => component_of (reCalculate h c)
  | NewProps cols gutter fillGaps slots_default =>
      set_props cols gutter fillGaps slots_default c
  end.

(** * Further notions: the distributor *)

(** The nodes an array of buckets holds, column after column. *)
Definition nodes_of (cols : columns) : list vnode :=
  flat_map (default []) cols.

(** The height a child adds to an accumulator: its [offsetHeight] when it is
    mounted, nothing otherwise. *)
Definition measured_height (x : vnode) : Z := default 0 (vnode_elm x).

(** The total measured height of a bucket. *)
Definition column_height (b : list vnode) : Z :=
  fold_right (fun x s => measured_height x + s) 0 b.

(** The largest measured height among [xs], 0 at least. *)
Definition tallest (xs : list vnode) : Z :=
  fold_right (fun x m => Z.max (measured_height x) m) 0 xs.

(** Mounted, with a height that is not negative. *)
Definition is_measured (x : vnode) : bool :=
  match vnode_elm x with
  | Some h => 0 <=? h
  | None => false
  end.

(** The accumulators are the heights of the columns. *)
Definition heights_match (st : columns * list Z) : Prop :=
  forall j h, st.2 !! j = Some h ->
              h = column_height (default [] (array_get j st.1)).

(** No two accumulators are further apart than [H]. *)
Definition spread_within (H : Z) (hs : list Z) : Prop :=
  forall i j hi hj, hs !! i = Some hi -> hs !! j = Some hj -> hi - hj <= H.

(** * [render] *)

(** [parseInt(this.displayGutter) === this.displayGutter * 1], the product
    by 1 being the conversion to a number. *)
Definition isGutterSizeUnitless (displayGutter : value) : result bool :=
  p ← parseInt displayGutter;
  n ← Number displayGutter;
  Ok (num_strict_eq (num_of_pint p) n).

(** The text of a value in a template literal.  A finite number is printed
    as the numeral of its integer part, which is its text when it is an
    integer below 10^21: [render] prints no other number (see
    [unitless_number]). *)
Definition template (v : value) : result string :=
  match v with
  | VUndef => Ok "undefined"
  | VNull => Ok "null"
  | VBool b => Ok (if b then "true" else "false")
  | VNum NaN => Ok "NaN"
  | VNum PInf => Ok "Infinity"
  | VNum NInf => Ok "-Infinity"
  | VNum (Fin q) => Ok (numeral (Qtrunc q))
  | VStr s => Ok s
  | VObj o => ToString_obj o
  end.

Definition gutterSizeWithUnit (displayGutter : value) : result value :=
  unitless ← isGutterSizeUnitless displayGutter;
  if (unitless : bool)
  then s ← template displayGutter; Ok (VStr (s ++ "px")%string)
  else Ok displayGutter.

(** [100 / displayColumns], the quotient before it is rounded and printed. *)
Definition percent (displayColumns : num) : num :=
  match displayColumns with
  | NaN => NaN
  | PInf | NInf => num_of_Z 0
  | Fin q => if Qeq_bool q 0 then PInf else Fin (inject_Z 100 / q)
  end.

(** [index + '-' + columnsContainingChildren.length] *)
Definition column_key (index length : nat) : string :=
  (numeral (Z.of_nat index) ++ "-" ++ numeral (Z.of_nat length))%string.

(** The props that only [render] reads; [columnClass] and [columnAttr] are
    handed over as they are. *)
Record presentation (P : Type) := Presentation {
  tag : string;
  columnTag : string;
  css : bool;
  columnClass : P;
  columnAttr : P
}.
Arguments tag {P} _.
Arguments columnTag {P} _.
Arguments css {P} _.
Arguments columnClass {P} _.
Arguments columnAttr {P} _.

Record columnStyle := ColumnStyle {
  boxSizing : string;
  backgroundClip : string;
  (** [width] is this number followed by [%] *)
  width : num;
  border : string;
  borderLeftWidth : value
}.

Record containerStyle := ContainerStyle {
  display : list string;
  (** [marginLeft] is [-] followed by the text of this value *)
  marginLeft : value
}.

(** What [createElement] is given for a column and for the root. *)
Record column_element (P : Type) := ColumnElement {
  column_tag : string;
  column_key_of : string;
  column_style : option columnStyle;
  column_class : P;
  column_attrs : P;
  column_children : list vnode
}.
Arguments column_tag {P} _.
Arguments column_key_of {P} _.
Arguments column_style {P} _.
Arguments column_class {P} _.
Arguments column_attrs {P} _.
Arguments column_children {P} _.

Record root_element (P : Type) := RootElement {
  root_tag : string;
  root_style : option containerStyle;
  root_children : list (option (column_element P))
}.
Arguments root_tag {P} _.
Arguments root_style {P} _.
Arguments root_children {P} _.

(** [a.map(f)] on an array with holes: [f] is called on the elements, with
    their indices, and the holes stay; [index] is the index of the head. *)
Fixpoint array_map {A B} (f : A -> nat -> B) (index : nat)
    (a : list (option A)) : list (option B) :=
  match a with
  | [] => []
  | e :: rest => ((fun x => f x index) <$> e) :: array_map f (S index) rest
  end.

Definition render {P} (props : presentation P) (c : component)
    : result (root_element P) :=
  columnsContainingChildren ← _getChildItemsInColumnsArray c;
  gutterSizeWithUnit ← gutterSizeWithUnit (displayGutter c);
  let columnStyle :=
    {| boxSizing := "border-box";
       backgroundClip := "padding-box";
       width := percent (displayColumns c);
       border := "0 solid transparent";
       borderLeftWidth := gutterSizeWithUnit |} in
  let columns :=
    array_map
      (fun children index =>
         {| column_tag := columnTag props;
            column_key_of := column_key index (length columnsContainingChildren);
            column_style := if css props then Some columnStyle else None;
            column_class := columnClass props;
            column_attrs := columnAttr props;
            column_children := children |})
      0 columnsContainingChildren in
  let containerStyle :=
    {| display := ["-webkit-box"; "-ms-flexbox"; "flex"];
       marginLeft := gutterSizeWithUnit |} in
  Ok {| root_tag := tag props;
        root_style := if css props then Some containerStyle else None;
        root_children := columns |}.

(** The children and the keys of the column elements of a root. *)
Definition rendered_children {P} (columns : list (option (column_element P)))
    : list vnode :=
  flat_map (fun e => default [] (column_children <$> e)) columns.

Definition rendered_keys {P} (columns : list (option (column_element P)))
    : list string :=
  omap (fmap column_key_of) columns.

(** * The lifecycle hooks *)

(** The page around the components: the callbacks listening to [resize] on
    [window], in the order they were added, and the callbacks [$nextTick]
    has queued.  A callback is named by the component whose [reCalculate]
    it is (a method is bound once to its component, so [this.reCalculate] is
    the same callback in every hook). *)
Record page := Page {
  resize_listeners : list nat;
  next_tick : list nat
}.

(** [window.addEventListener('resize', callback)]: a callback that is
    listening already is not added again. *)
Definition addEventListener (callback : nat) (listeners : list nat) : list nat :=
  if existsb (Nat.eqb callback) listeners then listeners
  else listeners ++ [callback].

(** [window.removeEventListener('resize', callback)] *)
Fixpoint removeEventListener (callback : nat) (listeners : list nat) : list nat :=
  match listeners with
  | [] => []
  | l :: rest =>
      if (callback =? l)%nat then rest
      else l :: removeEventListener callback rest
  end.

(** [this.$nextTick(() => { this.reCalculate(); })] *)
Definition queue_reCalculate (uid : nat) (p : page) : page :=
  {| resize_listeners := resize_listeners p;
     next_tick := next_tick p ++ [uid] |}.

(** The hooks of the component [uid]: the page they leave, and the error
    they throw if any. *)
Definition mounted (h : host) (uid : nat) (p : page) : page * option error :=
  let p := queue_reCalculate uid p in
  match h with
  | WindowUnbound => (p, Some ReferenceError)
  | WindowFalsy => (p, None)
  | Window _ =>
      ({| resize_listeners := addEventListener uid (resize_listeners p);
          next_tick := next_tick p |}, None)
  end.

Definition updated (uid : nat) (p : page) : page := queue_reCalculate uid p.

Definition beforeDestroy (h : host) (uid : nat) (p : page) : page * option error :=
  match h with
  | WindowUnbound => (p, Some ReferenceError)
  | WindowFalsy => (p, None)
  | Window _ =>
      ({| resize_listeners := removeEventListener uid (resize_listeners p);
          next_tick := next_tick p |}, None)
  end.

(** * Facts about numbers and parsing *)

Lemma Qle_bool_inject (a b : Z) : Qle_bool (inject_Z a) (inject_Z b) = (a <=? b).
Proof. unfold Qle_bool; simpl. now rewrite !Z.mul_1_r. Qed.

Lemma num_le_Z (a b : Z) : num_le (num_of_Z a) (num_of_Z b) = (a <=? b).
Proof. apply Qle_bool_inject. Qed.

Lemma num_lt_Z (a b : Z) : num_lt (num_of_Z a) (num_of_Z b) = (a <? b).
Proof.
  unfold num_lt, num_of_Z. rewrite Qle_bool_inject.
  now rewrite Z.ltb_antisym.
Qed.

Lemma take_digits_uint (d : Decimal.uint) :
  take_digits 10 (NilEmpty.string_of_uint d) = (udigits d, "").
Proof. induction d; simpl; rewrite ?IHd; reflexivity. Qed.

Lemma fold_digits_acc (d : Decimal.uint) (acc : positive) :
  fold_left (fun a x => 10 * a + x) (udigits d) (Zpos acc)
  = Zpos (Pos.of_uint_acc d acc).
Proof.
  revert acc; induction d; intros acc; simpl; try reflexivity;
    try (rewrite <- IHd; f_equal; lia).
Qed.

Lemma int_of_digits_uint (d : Decimal.uint) :
  int_of_digits 10 (udigits d) = Z.of_N (Pos.of_uint d).
Proof.
  unfold int_of_digits.
  induction d; simpl; try reflexivity; try assumption;
    apply (fold_digits_acc d).
Qed.

Lemma strip_hex_uint (d : Decimal.uint) :
  strip_hex (NilEmpty.string_of_uint d) = (10, NilEmpty.string_of_uint d).
Proof. destruct d as [|d|d|d|d|d|d|d|d|d|d]; try reflexivity; destruct d; reflexivity. Qed.

Lemma parse_uint (neg : bool) (p : positive) :
  let s := NilEmpty.string_of_uint (Pos.to_uint p) in
  skip_ws s = s /\ strip_sign s = (false, s) /\
  match fst (take_digits 10 s) with
  | [] => None
  | ds => Some (apply_sign neg (int_of_digits 10 ds))
  end = Some (apply_sign neg (Zpos p)).
Proof.
  intros s; subst s.
  pose proof (DecimalPos.Unsigned.of_to p) as Hp.
  rewrite take_digits_uint; simpl fst.
  pose proof (int_of_digits_uint (Pos.to_uint p)) as Hd.
  rewrite Hp in Hd; simpl in Hd.
  destruct (Pos.to_uint p) as [|d|d|d|d|d|d|d|d|d|d] eqn:E;
    try discriminate Hp; (repeat split; [reflexivity .. |]);
    simpl udigits in *; cbv iota; now rewrite Hd.
Qed.

Lemma string_of_uint_pos (p : positive) :
  NilZero.string_of_uint (Pos.to_uint p) = NilEmpty.string_of_uint (Pos.to_uint p).
Proof.
  pose proof (DecimalPos.Unsigned.of_to p) as Hp.
  destruct (Pos.to_uint p); try reflexivity. discriminate Hp.
Qed.

(** [parseInt] reads back the decimal numeral of every integer. *)
Lemma parseInt_str_numeral (z : Z) : parseInt_str (numeral z) = Some z.
Proof.
  destruct z as [|p|p]; [reflexivity | |]; unfold numeral; simpl NilZero.string_of_int.
  - rewrite string_of_uint_pos.
    destruct (parse_uint false p) as (Hw & Hs & Hd).
    unfold parseInt_str. rewrite Hw, Hs, strip_hex_uint. exact Hd.
  - rewrite string_of_uint_pos.
    destruct (parse_uint true p) as (Hw & Hs & Hd).
    unfold parseInt_str. simpl skip_ws. simpl strip_sign. cbv beta iota zeta.
    rewrite strip_hex_uint. exact Hd.
Qed.

(** * The resolver, as a selection among the usable breakpoints *)

Lemma parseInt_convertible (v : value) :
  convertible v = true -> exists p, parseInt v = Ok p.
Proof.
  destruct v as [| | b | n | s | o]; simpl; eauto.
  unfold ToString_obj. destruct (assoc "toString" o); [discriminate | eauto].
Qed.

Lemma parseInt_throws (v : value) (e : error) :
  parseInt v = Throw e -> convertible v = false.
Proof.
  destruct v as [| | b | n | s | o]; simpl; try discriminate.
  unfold ToString_obj. now destruct (assoc "toString" o).
Qed.

Lemma Number_convertible (v : value) :
  convertible v = true -> exists n, Number v = Ok n.
Proof.
  destruct v as [| | b | n | s | o]; simpl; eauto.
  unfold ToString_obj. destruct (assoc "toString" o); [discriminate | eauto].
Qed.

Lemma assoc_In (k : string) (o : object) (v : value) :
  assoc k o = Some v -> In (k, v) o.
Proof.
  induction o as [|[k' v'] o IH]; simpl; [discriminate|].
  destruct (String.eqb k k') eqn:E.
  - apply String.eqb_eq in E. intros [= ->]. subst. now left.
  - intros H. right. now apply IH.
Qed.

Lemma assoc_keys (k : string) (o : object) (v : value) :
  assoc k o = Some v -> In k (keys o).
Proof.
  intros H. apply assoc_In in H. unfold keys.
  apply in_map_iff. now exists (k, v).
Qed.

Lemma get_convertible (o : object) (k : string) :
  forallb (fun kv => convertible kv.2) o = true -> convertible (get k o) = true.
Proof.
  intros H. unfold get. destruct (assoc k o) eqn:E; [|reflexivity].
  apply assoc_In in E. rewrite forallb_forall in H. exact (H _ E).
Qed.

Lemma num_lt_bound (b : Z) (m : bound) :
  num_lt (num_of_Z b) (num_of_bound m) = below b m.
Proof. destruct m; [apply num_lt_Z | reflexivity]. Qed.

Section Loop.
Variables (o : object) (W : num).
Hypothesis values_convertible : forallb (fun kv => convertible kv.2) o = true.

Lemma breakpoint_step_select (acc : bound * value) (k : string) :
  breakpoint_step o W (lift_acc acc) k = Ok (lift_acc (select o W acc k)).
Proof.
  destruct acc as [m mv]. unfold breakpoint_step, select, lift_acc. simpl fst; simpl snd.
  destruct (parseInt_str k) as [b|] eqn:Ek.
  - cbn [key_of_pint]. unfold usable, get, parses_num.
    destruct (assoc (numeral b) o) as [v|] eqn:Ea.
    + destruct (parseInt_convertible v) as [p Hp].
      { apply assoc_In in Ea. rewrite forallb_forall in values_convertible.
        exact (values_convertible _ Ea). }
      rewrite Hp. destruct p as [n|]; [|reflexivity].
      cbn [mbind result_bind isNaN orb num_of_pint].
      rewrite num_lt_bound.
      destruct (num_le W (num_of_Z b)); [|reflexivity].
      now destruct (below b m).
    + reflexivity.
  - destruct (parseInt_convertible (get (key_of_pint None) o)) as [p Hp].
    { now apply get_convertible. }
    rewrite Hp. reflexivity.
Qed.

Lemma breakpoint_loop_select (ks : list string) (acc : bound * value) :
  breakpoint_loop o W ks (lift_acc acc)
  = Ok (lift_acc (fold_left (select o W) ks acc)).
Proof.
  revert acc; induction ks as [|k ks IH]; intros acc; simpl; [reflexivity|].
  change (breakpoint_step o W (lift_acc acc) k ≫= breakpoint_loop o W ks
          = Ok (lift_acc (fold_left (select o W) ks (select o W acc k)))).
  rewrite breakpoint_step_select. apply IH.
Qed.

End Loop.

Lemma value_or_default (o : object) :
  value_or (get "default" o) (VNum (num_of_Z 0)) = default_or_zero o.
Proof. unfold default_or_zero, get, value_or. now destruct (assoc "default" o). Qed.

(** On a mapping the resolver is the selection over its keys, started from
    [(Infinity, mixed.default || 0)]. *)
Lemma breakpointValue_mapping (o : object) (W : num) :
  plain_mapping o = true ->
  breakpointValue (VObj o) W
  = Ok (fold_left (select o W) (keys o) (None, default_or_zero o)).2.
Proof.
  unfold plain_mapping. intros [Ho Hv]%andb_prop.
  unfold breakpointValue, parseInt, ToString_obj.
  simpl in Ho. destruct (assoc "toString" o); [discriminate|].
  cbn [mbind result_bind]. change (parseInt_str "[object Object]") with (@None Z).
  cbn [num_of_pint num_lt num_of_Z]. rewrite value_or_default.
  change (PInf, default_or_zero o) with (lift_acc (None, default_or_zero o)).
  rewrite (breakpoint_loop_select o W Hv). reflexivity.
Qed.

Lemma usable_Some (o : object) (W : num) (b : Z) (v : value) :
  usable o W b = Some v <->
  assoc (numeral b) o = Some v /\ parses_num v = true
  /\ num_le W (num_of_Z b) = true.
Proof.
  unfold usable. destruct (assoc (numeral b) o) as [v'|].
  - destruct (parses_num v') eqn:Ep, (num_le W (num_of_Z b)) eqn:El; simpl;
      split; try (intros [= <-]; auto); try discriminate;
      intros ([= <-] & ? & ?); congruence.
  - split; [discriminate | intros ([=] & _)].
Qed.

Lemma least_usable_spec (o : object) (W : num) (b : Z) :
  least_usable o W b = true ->
  forall b' v', assoc (numeral b') o = Some v' ->
                parses_num v' = true -> num_le W (num_of_Z b') = true -> b <= b'.
Proof.
  unfold least_usable. rewrite forallb_forall. intros H b' v' Ha Hp Hl.
  specialize (H _ (assoc_keys _ _ _ Ha)).
  rewrite parseInt_str_numeral in H.
  assert (Hu : usable o W b' = Some v') by (apply usable_Some; auto).
  rewrite Hu in H. lia.
Qed.

(** ** The resolver on values that are no mapping *)

Lemma breakpointValue_fixed (mixed : value) (W : num) (p : Z) :
  parseInt mixed = Ok (Some p) -> -1 < p -> breakpointValue mixed W = Ok mixed.
Proof.
  intros Hp Hlt. unfold breakpointValue. rewrite Hp. cbn [mbind result_bind num_of_pint].
  rewrite num_lt_Z. now replace (-1 <? p) with true by lia.
Qed.

Lemma breakpointValue_primitive (mixed : value) (W : num) :
  is_primitive mixed = true ->
  (forall p, parseInt mixed = Ok (Some p) -> p <= -1) ->
  breakpointValue mixed W = Ok (VNum (num_of_Z 0)).
Proof.
  intros Hprim Hp. unfold breakpointValue.
  destruct (parseInt_convertible mixed) as [p E].
  { now destruct mixed. }
  rewrite E. cbn [mbind result_bind].
  destruct p as [p|]; cbn [num_of_pint].
  - rewrite num_lt_Z. specialize (Hp _ E).
    replace (-1 <? p) with false by lia. now destruct mixed.
  - cbn [num_lt num_of_Z]. now destruct mixed.
Qed.

(** ** Completion *)

Lemma select_fold_convertible (o : object) (W : num) (ks : list string)
    (acc : bound * value) :
  forallb (fun kv => convertible kv.2) o = true ->
  convertible acc.2 = true ->
  convertible (fold_left (select o W) ks acc).2 = true.
Proof.
  intros Hv. revert acc; induction ks as [|k ks IH]; intros acc Hacc; simpl; [exact Hacc|].
  apply IH. unfold select.
  destruct (parseInt_str k) as [b|]; [|exact Hacc].
  destruct (usable o W b) as [v|] eqn:Eu; [|exact Hacc].
  destruct (below b acc.1); [|exact Hacc]. simpl.
  apply usable_Some in Eu as (Ha & _ & _). apply assoc_In in Ha.
  rewrite forallb_forall in Hv. exact (Hv _ Ha).
Qed.

Lemma default_or_zero_convertible (o : object) :
  forallb (fun kv => convertible kv.2) o = true ->
  convertible (default_or_zero o) = true.
Proof.
  intros Hv. unfold default_or_zero.
  destruct (assoc "default" o) as [d|] eqn:E; [|reflexivity].
  destruct (truthy d); [|reflexivity].
  apply assoc_In in E. rewrite forallb_forall in Hv. exact (Hv _ E).
Qed.

Lemma breakpointValue_total (mixed : value) (W : num) :
  safe_config mixed = true ->
  exists r, breakpointValue mixed W = Ok r /\ convertible r = true.
Proof.
  intros Hs. destruct mixed as [| | b | n | s | o]; try discriminate.
  1-4: unfold breakpointValue;
       match goal with
       | |- context [parseInt ?v] =>
           destruct (parseInt v) eqn:E;
           [| apply parseInt_throws in E; discriminate]
       end;
       cbn [mbind result_bind]; destruct (num_lt _ _);
       eexists; split; reflexivity.
  - simpl in Hs. rewrite (breakpointValue_mapping o W Hs).
    eexists; split; [reflexivity|].
    unfold plain_mapping in Hs. apply andb_prop in Hs as [_ Hv].
    apply select_fold_convertible; [exact Hv|]. simpl.
    now apply default_or_zero_convertible.
Qed.


(** * The resolver: the statements of the specification *)









(** C5, on what is neither numeric nor a keyed mapping: the resolver returns
    0 on every such value but [null].  [typeof null] is ['object'], so the
    guard that answers 0 to what is no mapping lets [null] through, and
    reading [null.default] throws. *)
Theorem breakpointValue_non_mapping (mixed : value) (W : num) :
  is_mapping mixed = false ->
  (forall p, parseInt mixed = Ok (Some p) -> p <= -1) ->
  breakpointValue mixed W
  = match mixed with
    | VNull => Throw TypeError
    | _ => Ok (VNum (num_of_Z 0))
    end.
Proof.
  intros Hmap Hp. destruct mixed as [| | b | n | s | o]; try discriminate Hmap;
    try reflexivity; apply breakpointValue_primitive; auto.
Qed.

(** At [null] the resolver throws instead of returning 0. *)
Lemma breakpointValue_non_mapping_witness :
  breakpointValue VNull (num_of_Z 800) = Throw TypeError.
Proof.
  apply (breakpointValue_non_mapping VNull (num_of_Z 800)).
  - reflexivity.
  - intros p Hp. vm_compute in Hp. discriminate Hp.
Defined.

(** [resolve(5, W)] is 5 for all [W]. *)
Lemma breakpointValue_five (W : num) :
  breakpointValue (VNum (num_of_Z 5)) W = Ok (VNum (num_of_Z 5)).
Proof. reflexivity. Qed.

(** * The controller *)

Lemma Math_max_one (n : num) :
  num_le (num_of_Z 1) (Math_max (num_of_Z 1) (num_or n (num_of_Z 0))) = true.
Proof.
  unfold num_or. destruct n as [| | |q]; try reflexivity.
  destruct (num_truthy (Fin q)); [|reflexivity].
  unfold Math_max, num_of_Z.
  destruct (Qle_bool (inject_Z 1) q) eqn:E; simpl; [exact E | reflexivity].
Qed.


(** The recalculation returns whatever the width, unless [cols] is [null] or
    an object some conversion of which fails. *)
Lemma _reCalculateColumnCount_returns (c : component) (w : num) :
  safe_config (cols c) = true ->
  exists c', _reCalculateColumnCount c w = Done c'.
Proof.
  intros Hs. unfold _reCalculateColumnCount.
  destruct (breakpointValue_total (cols c) w Hs) as (r & -> & Hr).
  destruct (Number_convertible r Hr) as [n Hn].
  cbn [mbind result_bind]. rewrite Hn. eauto.
Qed.

Lemma _reCalculateGutterSize_returns (c : component) (w : num) :
  safe_config (gutter c) = true ->
  exists c', _reCalculateGutterSize c w = Done c'.
Proof.
  intros Hs. unfold _reCalculateGutterSize.
  destruct (breakpointValue_total (gutter c) w Hs) as (r & -> & _). eauto.
Qed.


(** C8, at [cols = null]: the recalculation throws, whatever the width. *)
Theorem reCalculate_null_cols_raises
    (innerWidth : num) (gutter : value) (fillGaps : bool)
    (slots_default : option (list vnode)) :
  let c := data VNull gutter fillGaps slots_default in
  reCalculate (Window innerWidth) c
  = Raised TypeError (set_windowWidth (num_or innerWidth PInf) c).
Proof. reflexivity. Qed.

Lemma num_strict_eq_refl (w : num) : w <> NaN -> num_strict_eq w w = true.
Proof.
  destruct w as [| | |q]; intros H; try reflexivity; [congruence|].
  simpl. apply Qeq_bool_iff. reflexivity.
Qed.

Lemma current_width_not_NaN (h : host) (w : num) :
  current_width h = Ok w -> w <> NaN.
Proof.
  destruct h as [| |i]; simpl; [discriminate | intros [= <-]; discriminate |].
  intros [= <-]. unfold num_or. destruct i; simpl; try discriminate.
  destruct (negb _); discriminate.
Qed.

Lemma reCalculate_guard (h : host) (c : component) (p w : num) :
  windowWidth c = Some p ->
  current_width h = Ok w ->
  num_strict_eq p w = true ->
  reCalculate h c = Done (set_windowWidth w c).
Proof.
  intros Hp Hw He. unfold reCalculate. rewrite Hw, Hp. simpl same_width.
  now rewrite He.
Qed.

(** C9.  When the width read from the host equals the one recorded by the
    previous run, [reCalculate] returns at its guard: [displayColumns] and
    [displayGutter] keep their values and no reactive data is assigned, so
    no render is asked for. *)
Theorem reCalculate_same_width (h : host) (c : component) (p w : num) :
  windowWidth c = Some p ->
  current_width h = Ok w ->
  num_strict_eq p w = true ->
  exists c',
    reCalculate h c = Done c'
    /\ displayColumns c' = displayColumns c
    /\ displayGutter c' = displayGutter c
    /\ assigned c' = assigned c
    /\ windowWidth c' = Some w.
Proof.
  intros Hp Hw He. rewrite (reCalculate_guard h c p w Hp Hw He).
  eexists; repeat split.
Qed.

Lemma reCalculate_same_width_witness :
  let c := set_windowWidth (num_of_Z 800)
             (data (VNum (num_of_Z 3)) (VNum (num_of_Z 10)) false None) in
  exists c',
    reCalculate (Window (num_of_Z 800)) c = Done c'
    /\ displayColumns c' = displayColumns c
    /\ displayGutter c' = displayGutter c
    /\ assigned c' = assigned c
    /\ windowWidth c' = Some (num_of_Z 800).
Proof.
  intros c.
  apply (reCalculate_same_width (Window (num_of_Z 800)) c (num_of_Z 800) (num_of_Z 800));
    reflexivity.
Defined.

Lemma reCalculate_records_width (h : host) (c : component) (w : num) :
  current_width h = Ok w ->
  windowWidth (component_of (reCalculate h c)) = Some w.
Proof.
  intros Hw. unfold reCalculate. rewrite Hw.
  destruct (same_width (windowWidth c) w); [reflexivity|].
  unfold _reCalculateColumnCount.
  destruct (breakpointValue (cols (set_windowWidth w c)) w ≫= Number); [|reflexivity].
  unfold _reCalculateGutterSize.
  now destruct (breakpointValue _ w).
Qed.

(** Called twice in a row on the same host, [reCalculate] does nothing the
    second time, whether the first run returned or threw. *)
Lemma reCalculate_twice (h : host) (c : component) (w : num) :
  current_width h = Ok w ->
  let c1 := component_of (reCalculate h c) in
  exists c2,
    reCalculate h c1 = Done c2
    /\ displayColumns c2 = displayColumns c1
    /\ displayGutter c2 = displayGutter c1
    /\ assigned c2 = assigned c1.
Proof.
  intros Hw c1.
  rewrite (reCalculate_guard h c1 w w).
  - eexists; repeat split.
  - now apply reCalculate_records_width.
  - exact Hw.
  - apply num_strict_eq_refl. eapply current_width_not_NaN; eauto.
Qed.

(** On a host with a [window], whatever its width, a run returns unless
    [cols] or [gutter] is [null] or an object some conversion of which
    fails: malformed keys and values are passed over. *)
Lemma reCalculate_returns (h : host) (c : component) :
  h <> WindowUnbound ->
  safe_config (cols c) = true -> safe_config (gutter c) = true ->
  exists c', reCalculate h c = Done c'.
Proof.
  intros Hh Hc Hg. unfold reCalculate.
  destruct (current_width h) as [w|e] eqn:Hw.
  2:{ destruct h; try discriminate Hw. contradiction. }
  destruct (same_width (windowWidth c) w); [eauto|].
  destruct (_reCalculateColumnCount_returns (set_windowWidth w c) w Hc) as [c1 E1].
  rewrite E1.
  assert (Hg1 : safe_config (gutter c1) = true).
  { unfold _reCalculateColumnCount in E1.
    destruct (breakpointValue _ w ≫= Number); [|discriminate].
    injection E1 as <-. exact Hg. }
  exact (_reCalculateGutterSize_returns c1 w Hg1).
Qed.

(** Degenerate column counts end up as one column. *)
Lemma degenerate_columns :
  Forall (fun cols =>
            displayColumns
              (component_of
                 (reCalculate (Window (num_of_Z 800))
                    (data cols (VNum (num_of_Z 0)) false None)))
            = num_of_Z 1)
    [VNum (num_of_Z 0); VNum (num_of_Z (-3)); VNum NaN; VStr "abc"; VStr "0";
     VUndef; VBool true; VObj []; VObj [("abc", VStr "x")];
     VObj [("default", VStr "none")]].
Proof. repeat constructor. Qed.

(** The breakpoints [{0: 1, 600: 2, 900: 3}] at some widths. *)
Lemma breakpointValue_examples :
  let o := VObj [("0", VNum (num_of_Z 1)); ("600", VNum (num_of_Z 2));
                 ("900", VNum (num_of_Z 3))] in
  breakpointValue o (num_of_Z 0) = Ok (VNum (num_of_Z 1))
  /\ breakpointValue o (num_of_Z 600) = Ok (VNum (num_of_Z 2))
  /\ breakpointValue o (num_of_Z 650) = Ok (VNum (num_of_Z 3))
  /\ breakpointValue o (num_of_Z 1000) = Ok (VNum (num_of_Z 0))
  /\ breakpointValue o PInf = Ok (VNum (num_of_Z 0)).
Proof. repeat split. Qed.

(** * The distributor *)

(** ** Arrays with holes *)

Section Arrays.
Context {A : Type}.
Implicit Types (a : list (option A)) (i j : nat).

Lemma length_array_set i (x : A) a :
  length (array_set i x a) = Nat.max (length a) (S i).
Proof.
  unfold array_set. destruct (Nat.ltb_spec i (length a)).
  - rewrite length_insert. lia.
  - rewrite !length_app, length_replicate. simpl. lia.
Qed.

Lemma array_get_set i j (x : A) a :
  array_get j (array_set i x a) = if decide (j = i) then Some x else array_get j a.
Proof.
  unfold array_get, array_set. destruct (Nat.ltb_spec i (length a)).
  - destruct (decide (j = i)) as [->|Hne].
    + now rewrite list_lookup_insert_eq.
    + now rewrite list_lookup_insert_ne.
  - destruct (decide (j = i)) as [->|Hne].
    + rewrite lookup_app_r by lia. rewrite lookup_app_r; rewrite length_replicate; [|lia].
      now replace (i - length a - (i - length a))%nat with 0%nat by lia.
    + destruct (Nat.lt_ge_cases j (length a)).
      * now rewrite lookup_app_l.
      * rewrite lookup_app_r by lia.
        rewrite (lookup_ge_None_2 a j) by lia.
        destruct (Nat.lt_ge_cases j i).
        -- rewrite lookup_app_l by (rewrite length_replicate; lia).
           now rewrite lookup_replicate_2 by lia.
        -- rewrite lookup_ge_None_2; [reflexivity|].
           rewrite length_app, length_replicate. simpl. lia.
Qed.

Lemma array_get_lt i a (x : A) : array_get i a = Some x -> (i < length a)%nat.
Proof.
  unfold array_get. intros H. apply lookup_lt_is_Some.
  destruct (a !! i); [eauto | discriminate].
Qed.
End Arrays.

Lemma array_get_push {A} (i j : nat) (x : A) (a : list (option (list A))) :
  array_get j (array_push i x a)
  = if decide (j = i) then (fun b => b ++ [x])%list <$> array_get i a
    else array_get j a.
Proof.
  unfold array_get, array_push. destruct (decide (j = i)) as [->|Hne].
  - rewrite list_lookup_alter_eq. now destruct (a !! i) as [[b|]|].
  - now rewrite list_lookup_alter_ne.
Qed.

Lemma length_array_push {A} (i : nat) (x : A) (a : list (option (list A))) :
  length (array_push i x a) = length a.
Proof. apply length_alter. Qed.

(** ** [getShortestColumnIndex] *)

Lemma is_first_min_singleton (h : Z) : is_first_min [h] 0.
Proof.
  exists h. repeat split.
  - intros [|i] h'; simpl; [intros [= <-]; lia | discriminate].
  - intros i h' Hi. lia.
Qed.

Lemma is_first_min_snoc_lt (pre : list Z) (ti : nat) (th h : Z) :
  is_first_min pre ti -> pre !! ti = Some th -> h < th ->
  is_first_min (pre ++ [h]) (length pre).
Proof.
  intros (m & Hm & Hall & Hbefore) Hth Hlt.
  assert (m = th) by congruence. subst m.
  exists h. repeat split.
  - rewrite lookup_app_r by lia. now rewrite Nat.sub_diag.
  - intros i h' Hi. apply lookup_app_Some in Hi as [Hi|[Hge Hi]].
    + specialize (Hall _ _ Hi). lia.
    + apply list_lookup_singleton_Some in Hi as [_ <-]. lia.
  - intros i h' Hi Hl. rewrite lookup_app_l in Hl by lia.
    specialize (Hall _ _ Hl). lia.
Qed.

Lemma is_first_min_snoc_ge (pre : list Z) (ti : nat) (th h : Z) :
  is_first_min pre ti -> pre !! ti = Some th -> th <= h ->
  is_first_min (pre ++ [h]) ti.
Proof.
  intros (m & Hm & Hall & Hbefore) Hth Hge.
  assert (m = th) by congruence. subst m.
  exists th. repeat split.
  - apply lookup_app_l_Some. exact Hth.
  - intros i h' Hi. apply lookup_app_Some in Hi as [Hi|[_ Hi]].
    + eauto.
    + apply list_lookup_singleton_Some in Hi as [_ <-]. lia.
  - intros i h' Hi Hl.
    assert (ti < length pre)%nat by (apply lookup_lt_is_Some; eauto).
    rewrite lookup_app_l in Hl by lia. eauto.
Qed.

Lemma getShortestColumnIndex_loop_spec (hs pre : list Z) (trg : option (nat * Z)) :
  match trg with
  | None => pre = []
  | Some (ti, th) => is_first_min pre ti /\ pre !! ti = Some th
  end ->
  match getShortestColumnIndex_loop hs (length pre) trg with
  | None => pre ++ hs = []
  | Some (j, m) => is_first_min (pre ++ hs) j /\ (pre ++ hs) !! j = Some m
  end.
Proof.
  revert pre trg; induction hs as [|h hs IH]; intros pre trg Htrg; simpl.
  - rewrite app_nil_r. exact Htrg.
  - replace (pre ++ h :: hs) with ((pre ++ [h]) ++ hs) by now rewrite <- app_assoc.
    replace (S (length pre)) with (length (pre ++ [h]))
      by (rewrite length_app; simpl; lia).
    apply IH. unfold getShortestColumnIndex_step.
    destruct trg as [[ti th]|].
    + destruct Htrg as [Hmin Hth].
      destruct (Z.ltb_spec h th).
      * split; [eapply is_first_min_snoc_lt; eauto|].
        rewrite lookup_app_r by lia. now rewrite Nat.sub_diag.
      * split; [eapply is_first_min_snoc_ge; eauto|].
        now apply lookup_app_l_Some.
    + subst pre. split; [apply is_first_min_singleton | reflexivity].
Qed.

(** The loop answers the first index at which [heights] is minimal. *)
Lemma getShortestColumnIndex_first_min (heights : list Z) :
  heights <> [] ->
  exists j, getShortestColumnIndex heights = Some j /\ is_first_min heights j.
Proof.
  intros Hne. unfold getShortestColumnIndex.
  pose proof (getShortestColumnIndex_loop_spec heights [] None eq_refl) as H.
  simpl in H. destruct (getShortestColumnIndex_loop heights 0 None) as [[j m]|].
  - exists j. split; [reflexivity | apply H].
  - contradiction.
Qed.

Lemma is_first_min_lt (hs : list Z) (j : nat) :
  is_first_min hs j -> (j < length hs)%nat.
Proof. intros (m & Hm & _). apply lookup_lt_is_Some. eauto. Qed.


(** ** One child: [place] *)

Lemma place_heights (fillGaps : bool) (cols : columns) (heights : list Z)
    (index : nat) (x : vnode) :
  (place fillGaps (cols, heights) index x).2 = grown_heights fillGaps heights x.
Proof.
  unfold place, grown_heights.
  destruct fillGaps, (vnode_elm x) as [h|];
    try (destruct (index_mod index (length heights)); reflexivity).
  now destruct (getShortestColumnIndex heights).
Qed.

Lemma place_columns (fillGaps : bool) (cols : columns) (heights : list Z)
    (index : nat) (x : vnode) :
  let cols' := (place fillGaps (cols, heights) index x).1 in
  match chosen_column fillGaps heights index x with
  | Some j =>
      (forall j', array_get j' cols'
                  = if decide (j' = j)
                    then Some (default [] (array_get j cols) ++ [x])
                    else array_get j' cols)
      /\ length cols' = Nat.max (length cols) (S j)
  | None => cols' = cols
  end.
Proof.
  assert (Hput : forall j,
    let cols' := array_push j x
                   match array_get j cols with
                   | Some _ => cols
                   | None => array_set j [] cols
                   end in
    (forall j', array_get j' cols'
                = if decide (j' = j)
                  then Some (default [] (array_get j cols) ++ [x])
                  else array_get j' cols)
    /\ length cols' = Nat.max (length cols) (S j)).
  { intros j cols'. subst cols'. destruct (array_get j cols) as [b|] eqn:E.
    - split.
      + intros j'. rewrite array_get_push, E. reflexivity.
      + rewrite length_array_push. apply array_get_lt in E. lia.
    - split.
      + intros j'. rewrite array_get_push, !array_get_set.
        destruct (decide (j' = j)); [|reflexivity].
        now rewrite decide_True by reflexivity.
      + now rewrite length_array_push, length_array_set. }
  unfold place, chosen_column.
  destruct fillGaps, (vnode_elm x) as [h|]; cbv zeta.
  - destruct (getShortestColumnIndex heights) as [j|]; [apply Hput | reflexivity].
  - destruct (index_mod index (length heights)) as [j|]; [apply Hput | reflexivity].
  - destruct (index_mod index (length heights)) as [j|]; [apply Hput | reflexivity].
  - destruct (index_mod index (length heights)) as [j|]; [apply Hput | reflexivity].
Qed.

Lemma length_grown_heights (fillGaps : bool) (heights : list Z) (x : vnode) :
  length (grown_heights fillGaps heights x) = length heights.
Proof.
  unfold grown_heights.
  destruct fillGaps, (vnode_elm x), (getShortestColumnIndex heights);
    try reflexivity. apply length_alter.
Qed.

Lemma chosen_column_lt (fillGaps : bool) (heights : list Z) (index : nat)
    (x : vnode) (j : nat) :
  chosen_column fillGaps heights index x = Some j -> (j < length heights)%nat.
Proof.
  assert (Hmod : index_mod index (length heights) = Some j -> (j < length heights)%nat).
  { unfold index_mod. destruct (Nat.eqb_spec (length heights) 0); [discriminate|].
    intros [= <-]. now apply Nat.mod_upper_bound. }
  unfold chosen_column. destruct fillGaps, (vnode_elm x); try exact Hmod.
  intros Hj. destruct heights as [|h hs]; [discriminate|].
  destruct (getShortestColumnIndex_first_min (h :: hs)) as (j' & E & Hmin); [discriminate|].
  rewrite E in Hj. injection Hj as <-. now apply is_first_min_lt.
Qed.

(** ** All children: [forEach] *)

Lemma forEach_place_app (fillGaps : bool) (xs ys : list vnode) (index : nat)
    (st : columns * list Z) :
  forEach_place fillGaps (xs ++ ys) index st
  = forEach_place fillGaps ys (index + length xs)
      (forEach_place fillGaps xs index st).
Proof.
  revert index st; induction xs as [|x xs IH]; intros index st; simpl.
  - now rewrite Nat.add_0_r.
  - rewrite IH. now rewrite Nat.add_succ_r.
Qed.

Lemma extend_step (b0 : option (list vnode)) (x : vnode) (l : list vnode) :
  extend (Some (default [] b0 ++ [x])) l = extend b0 (x :: l).
Proof.
  unfold extend. destruct l as [|y l]; simpl; [reflexivity|].
  now rewrite <- app_assoc.
Qed.

(** The run over [xs] leaves at every index of [columns] what was there,
    extended by the children assigned to that index, in input order; the
    array grows to the largest index assigned, and not beyond the number of
    accumulators. *)
Lemma forEach_place_spec (fillGaps : bool) (xs : list vnode) (index : nat)
    (cols : columns) (heights : list Z) :
  let st' := forEach_place fillGaps xs index (cols, heights) in
  (forall j, array_get j st'.1
             = extend (array_get j cols)
                 (bucket j (assignment fillGaps heights index xs) xs))
  /\ length st'.2 = length heights
  /\ (length cols <= length st'.1 <= Nat.max (length cols) (length heights))%nat.
Proof.
  revert index cols heights; induction xs as [|x xs IH]; intros index cols heights.
  { simpl. repeat split; lia. }
  cbv zeta.
  change (forEach_place fillGaps (x :: xs) index (cols, heights))
    with (forEach_place fillGaps xs (S index) (place fillGaps (cols, heights) index x)).
  change (assignment fillGaps heights index (x :: xs))
    with (chosen_column fillGaps heights index x
          :: assignment fillGaps (grown_heights fillGaps heights x) (S index) xs).
  pose proof (place_heights fillGaps cols heights index x) as Hh.
  pose proof (place_columns fillGaps cols heights index x) as Hc.
  cbv zeta in Hc.
  destruct (place fillGaps (cols, heights) index x) as [cols1 hs1].
  simpl in Hh, Hc. subst hs1.
  specialize (IH (S index) cols1 (grown_heights fillGaps heights x)).
  cbv zeta in IH. destruct IH as (IHget & IHlen & IHcols).
  rewrite length_grown_heights in IHlen, IHcols.
  split; [|split; [exact IHlen|]].
  - intros j. rewrite IHget. simpl bucket.
    destruct (chosen_column fillGaps heights index x) as [col|] eqn:Ecol.
    + destruct Hc as [Hget _]. rewrite Hget.
      destruct (decide (j = col)) as [->|Hne].
      * rewrite decide_True by reflexivity. apply extend_step.
      * rewrite decide_False by congruence. reflexivity.
    + subst cols1. rewrite decide_False by discriminate. reflexivity.
  - destruct (chosen_column fillGaps heights index x) as [col|] eqn:Ecol.
    + destruct Hc as [_ Hlen]. apply chosen_column_lt in Ecol. lia.
    + subst cols1. exact IHcols.
Qed.

Lemma bucket_subset (j : nat) (a : list (option nat)) (xs : list vnode) (x : vnode) :
  In x (bucket j a xs) -> In x xs.
Proof.
  revert a; induction xs as [|y xs IH]; intros [|col a]; simpl; try tauto.
  destruct (decide (col = Some j)); simpl; intros H; [destruct H|]; eauto.
Qed.

Lemma bucket_sublist (j : nat) (a : list (option nat)) (xs : list vnode) :
  sublist (bucket j a xs) xs.
Proof.
  revert a; induction xs as [|y xs IH]; intros [|col a]; simpl;
    try apply sublist_nil_l.
  destruct (decide (col = Some j)).
  - apply sublist_skip, IH.
  - apply sublist_cons, IH.
Qed.

(** ** The accumulators [new Array(displayColumns).fill(0)] *)

Lemma new_Array_fill0_count (dc : num) (n : nat) :
  column_count dc n -> Z.of_nat n < 2 ^ 32 ->
  new_Array_fill0 dc = Ok (replicate n 0).
Proof.
  destruct dc as [| | |q]; simpl; try contradiction. intros Hq Hn.
  rewrite (Qred_complete _ _ Hq), inject_Z_Qred. unfold inject_Z.
  replace (0 <=? Z.of_nat n) with true by lia.
  replace (Z.of_nat n <? 2 ^ 32) with true by lia.
  simpl. now rewrite Nat2Z.id.
Qed.

Lemma distribute_count (dc : num) (n : nat) (fillGaps : bool) (vs : list vnode) :
  column_count dc n -> Z.of_nat n < 2 ^ 32 ->
  distribute dc fillGaps (Some vs)
  = Ok (forEach_place fillGaps (List.filter has_tag vs) 0 ([], replicate n 0)).
Proof.
  intros Hc Hn. unfold distribute. now rewrite (new_Array_fill0_count dc n).
Qed.

(** ** Round robin *)

Lemma bucket_round_robin (n j index : nat) (heights : list Z) (xs : list vnode) :
  length heights = n -> (1 <= n)%nat ->
  bucket j (assignment false heights index xs) xs = every_nth n j index xs.
Proof.
  intros Hlen Hn. revert index; induction xs as [|x xs IH]; intros index; simpl.
  { reflexivity. }
  unfold chosen_column, grown_heights. simpl. rewrite IH.
  unfold index_mod. rewrite Hlen.
  destruct (Nat.eqb_spec n 0); [lia|].
  destruct (Nat.eqb_spec (index mod n) j) as [->|Hne].
  - now rewrite decide_True.
  - rewrite decide_False; [reflexivity | congruence].
Qed.

Lemma every_nth_In (n index i : nat) (xs : list vnode) (x : vnode) :
  xs !! i = Some x -> In x (every_nth n ((index + i) mod n) index xs).
Proof.
  revert index i; induction xs as [|y xs IH]; intros index [|i]; simpl;
    try discriminate.
  - intros [= ->]. rewrite Nat.add_0_r, Nat.eqb_refl. now left.
  - intros Hx. replace (index + S i)%nat with (S index + i)%nat by lia.
    specialize (IH (S index) i Hx).
    destruct (index mod n =? (S index + i) mod n)%nat; [now right | exact IH].
Qed.

Lemma every_nth_sublist (n j index : nat) (xs : list vnode) :
  sublist (every_nth n j index xs) xs.
Proof.
  revert index; induction xs as [|y xs IH]; intros index; simpl.
  - apply sublist_nil_l.
  - destruct (index mod n =? j)%nat; [apply sublist_skip | apply sublist_cons]; apply IH.
Qed.

Lemma forEach_place_round_robin_length (n : nat) (xs : list vnode) (index : nat)
    (cols : columns) (heights : list Z) :
  length heights = n -> (1 <= n)%nat ->
  length cols = Nat.min index n ->
  length (forEach_place false xs index (cols, heights)).1
  = Nat.min (index + length xs) n.
Proof.
  intros Hlen Hn. revert index cols; induction xs as [|x xs IH]; intros index cols Hcols.
  { simpl. now rewrite Nat.add_0_r. }
  change (forEach_place false (x :: xs) index (cols, heights))
    with (forEach_place false xs (S index) (place false (cols, heights) index x)).
  pose proof (place_heights false cols heights index x) as Hh.
  pose proof (place_columns false cols heights index x) as Hc.
  cbv zeta in Hc.
  destruct (place false (cols, heights) index x) as [cols1 hs1].
  simpl in Hh, Hc. unfold grown_heights in Hh. subst hs1.
  unfold chosen_column, index_mod in Hc. rewrite Hlen in Hc.
  destruct (Nat.eqb_spec n 0); [lia|]. destruct Hc as [_ Hl].
  rewrite IH.
  - replace (index + length (x :: xs))%nat with (S index + length xs)%nat
      by (simpl; lia). reflexivity.
  - rewrite Hl, Hcols.
    destruct (Nat.lt_ge_cases index n).
    + rewrite Nat.mod_small by lia. lia.
    + pose proof (Nat.mod_upper_bound index n). lia.
Qed.

Lemma forEach_place_round_robin (n : nat) (xs : list vnode) :
  (1 <= n)%nat ->
  (forEach_place false xs 0 ([], replicate n 0)).1 = round_robin n xs.
Proof.
  intros Hn.
  pose proof (forEach_place_spec false xs 0 [] (replicate n 0)) as (Hget & _ & _).
  pose proof (forEach_place_round_robin_length n xs 0 [] (replicate n 0)
                (length_replicate _ _) Hn eq_refl) as Hlen.
  change (0 + length xs)%nat with (length xs) in Hlen.
  set (cols := (forEach_place false xs 0 ([], replicate n 0)).1) in *.
  apply list_eq. intros i. unfold round_robin.
  rewrite list_lookup_fmap.
  destruct (Nat.lt_ge_cases i (Nat.min (length xs) n)) as [Hi|Hi].
  - rewrite lookup_seq_lt by exact Hi. simpl.
    destruct (lookup_lt_is_Some_2 cols i) as [e He]; [lia|].
    rewrite He. f_equal.
    specialize (Hget i). unfold array_get in Hget. rewrite He in Hget.
    simpl in Hget. rewrite Hget.
    rewrite (bucket_round_robin n) by (rewrite ?length_replicate; auto).
    destruct (lookup_lt_is_Some_2 xs i) as [x Hx]; [lia|].
    pose proof (every_nth_In n 0 i xs x Hx) as Hin.
    simpl in Hin. rewrite Nat.mod_small in Hin by lia.
    unfold extend. destruct (every_nth n i 0 xs); [destruct Hin | reflexivity].
  - rewrite lookup_seq_ge by exact Hi. simpl.
    apply lookup_ge_None_2. lia.
Qed.

(** * The distributor: the statements of the specification *)

Lemma getChildItems_unwrapped (c : component) (n : nat) (vs : list vnode) :
  column_count (displayColumns c) n -> Z.of_nat n < 2 ^ 32 ->
  unwrap (default [] (slots_default c)) = Some vs ->
  _getChildItemsInColumnsArray c
  = Ok (forEach_place (fillGaps c) (List.filter has_tag vs) 0
          ([], replicate n 0)).1.
Proof.
  intros Hc Hn Hu. unfold _getChildItemsInColumnsArray.
  rewrite Hu, (distribute_count _ n) by assumption. reflexivity.
Qed.

(** C3.  Without [fillGaps], for a column count [n >= 1] (an array length),
    the child at the position [i] of the filtered sequence goes to the
    column [i mod n]: the buckets are those of [round_robin], a function of
    the count and the filtered children alone, each bucket lists its
    children in input order. *)
Theorem round_robin_distribution (c : component) (n : nat) (vs : list vnode) :
  fillGaps c = false ->
  column_count (displayColumns c) n -> (1 <= n)%nat -> Z.of_nat n < 2 ^ 32 ->
  unwrap (default [] (slots_default c)) = Some vs ->
  let fs := List.filter has_tag vs in
  _getChildItemsInColumnsArray c = Ok (round_robin n fs)
  /\ (forall i x, fs !! i = Some x ->
        exists b, array_get (i mod n) (round_robin n fs) = Some b /\ In x b)
  /\ (forall j b, array_get j (round_robin n fs) = Some b ->
        b = every_nth n j 0 fs /\ sublist b fs).
Proof.
  intros Hfg Hc Hn Hlt Hu fs.
  assert (Hget : forall j b, array_get j (round_robin n fs) = Some b ->
                             b = every_nth n j 0 fs).
  { intros j b. unfold array_get, round_robin. rewrite list_lookup_fmap.
    destruct (seq 0 (Nat.min (length fs) n) !! j) as [j'|] eqn:E; [|discriminate].
    apply lookup_seq in E as [-> _]. simpl. now intros [= <-]. }
  split; [|split].
  - rewrite (getChildItems_unwrapped c n vs) by assumption.
    rewrite Hfg. f_equal. now apply forEach_place_round_robin.
  - intros i x Hx.
    assert (Hi : (i < length fs)%nat) by (apply lookup_lt_is_Some; eauto).
    assert (Hm : (i mod n < n)%nat) by (apply Nat.mod_upper_bound; lia).
    assert (Hle : (i mod n <= i)%nat) by (apply Nat.Div0.mod_le).
    exists (every_nth n (i mod n) 0 fs). split.
    + unfold array_get, round_robin. rewrite list_lookup_fmap.
      rewrite lookup_seq_lt by lia. reflexivity.
    + exact (every_nth_In n 0 i fs x Hx).
  - intros j b Hb. apply Hget in Hb as ->. split; [reflexivity|].
    apply every_nth_sublist.
Qed.

(** The example of C3: 6 children in 2 columns. *)
Lemma round_robin_distribution_witness :
  let c := {| cols := VNum (num_of_Z 2); gutter := VNum (num_of_Z 0);
              fillGaps := false;
              slots_default :=
                Some [child 0; child 1; child 2; child 3; child 4; child 5];
              displayColumns := num_of_Z 2; displayGutter := VNum (num_of_Z 0);
              windowWidth := Some (num_of_Z 800); assigned := [] |} in
  _getChildItemsInColumnsArray c
  = Ok [Some [child 0; child 2; child 4]; Some [child 1; child 3; child 5]].
Proof.
  intros c.
  refine (proj1 (round_robin_distribution c 2
                   [child 0; child 1; child 2; child 3; child 4; child 5]
                   eq_refl _ _ _ eq_refl)).
  - reflexivity.
  - lia.
  - reflexivity.
Defined.




(** The accumulators of that example after each child. *)
Lemma fill_gaps_trace :
  let start : columns * list Z := ([], replicate 2 0) in
  let s1 := place true start 0 (measured 0 5) in
  let s2 := place true s1 1 (measured 1 1) in
  let s3 := place true s2 2 (measured 2 1) in
  s1 = ([Some [measured 0 5]], [5; 0])
  /\ s2 = ([Some [measured 0 5]; Some [measured 1 1]], [5; 1])
  /\ s3 = ([Some [measured 0 5]; Some [measured 1 1; measured 2 1]], [5; 2]).
Proof. repeat split. Qed.

(** In either mode every bucket lists its children in input order. *)
Lemma buckets_keep_input_order (c : component) (n : nat) (vs : list vnode)
    (columns : list (option (list vnode))) (j : nat) (b : list vnode) :
  column_count (displayColumns c) n -> Z.of_nat n < 2 ^ 32 ->
  unwrap (default [] (slots_default c)) = Some vs ->
  _getChildItemsInColumnsArray c = Ok columns ->
  array_get j columns = Some b ->
  sublist b (List.filter has_tag vs).
Proof.
  intros Hc Hlt Hu. rewrite (getChildItems_unwrapped c n vs) by assumption.
  intros [= <-].
  pose proof (forEach_place_spec (fillGaps c) (List.filter has_tag vs) 0 []
                (replicate n 0)) as (Hget & _ & _).
  rewrite Hget. unfold array_get, extend. simpl.
  destruct (bucket j _ _) eqn:E; [discriminate|]. intros [= <-].
  rewrite <- E. apply bucket_sublist.
Qed.

(** C7 (as amended).  For a column count [n >= 1] (an array length) the
    array of buckets has at most [n] elements; without [fillGaps] it has as
    many as there are filtered children, up to [n].  A column is created when
    its first child arrives, so no bucket is empty. *)
Theorem column_array_length (c : component) (n : nat) (vs : list vnode) :
  column_count (displayColumns c) n -> (1 <= n)%nat -> Z.of_nat n < 2 ^ 32 ->
  unwrap (default [] (slots_default c)) = Some vs ->
  exists columns,
    _getChildItemsInColumnsArray c = Ok columns
    /\ (length columns <= n)%nat
    /\ (fillGaps c = false ->
        length columns = Nat.min (length (List.filter has_tag vs)) n)
    /\ (forall j b, array_get j columns = Some b -> b <> []).
Proof.
  intros Hc Hn Hlt Hu.
  rewrite (getChildItems_unwrapped c n vs) by assumption.
  eexists; split; [reflexivity|].
  pose proof (forEach_place_spec (fillGaps c) (List.filter has_tag vs) 0 []
                (replicate n 0)) as (Hget & _ & Hlen).
  rewrite length_replicate in Hlen. simpl in Hlen.
  split; [lia|]. split.
  - intros ->. apply (forEach_place_round_robin_length n);
      [apply length_replicate | exact Hn | reflexivity].
  - intros j b. rewrite Hget. unfold array_get, extend. simpl.
    destruct (bucket j _ _); [discriminate|]. intros [= <-]. discriminate.
Qed.

Lemma column_array_length_witness :
  let c := {| cols := VNum (num_of_Z 3); gutter := VNum (num_of_Z 0);
              fillGaps := false; slots_default := Some [child 0];
              displayColumns := num_of_Z 3; displayGutter := VNum (num_of_Z 0);
              windowWidth := Some (num_of_Z 800); assigned := [] |} in
  exists columns,
    _getChildItemsInColumnsArray c = Ok columns
    /\ (length columns <= 3)%nat
    /\ (fillGaps c = false -> length columns = 1%nat)
    /\ (forall j b, array_get j columns = Some b -> b <> []).
Proof.
  intros c.
  refine (column_array_length c 3 [child 0] _ _ _ eq_refl).
  - reflexivity.
  - lia.
  - reflexivity.
Defined.

(** C7 as stated fails: one child in 3 columns gives an array of length 1. *)
Lemma spec_bucket_count_counterexample :
  ~ spec_bucket_count
      {| cols := VNum (num_of_Z 3); gutter := VNum (num_of_Z 0);
         fillGaps := false; slots_default := Some [child 0];
         displayColumns := num_of_Z 3; displayGutter := VNum (num_of_Z 0);
         windowWidth := Some (num_of_Z 800); assigned := [] |} 3.
Proof. intros H. specialize (H _ eq_refl). discriminate H. Qed.

(** C10.  Only the first node of the slot is looked at.  When it is a
    [transition-group], its children are distributed in place of the slot
    content, whatever follows it in the slot: every node of every bucket is
    a tagged child of the wrapper.  When it is not, the slot content is
    distributed as it is. *)
Theorem transition_group_unwrap (c : component) (node : vnode) (rest : list vnode) :
  slots_default c = Some (node :: rest) ->
  (is_transition_group node = true ->
   _getChildItemsInColumnsArray c
   = fst <$> distribute (displayColumns c) (fillGaps c)
               (componentOptions_children node)
   /\ forall columns j b y,
        _getChildItemsInColumnsArray c = Ok columns ->
        array_get j columns = Some b -> In y b ->
        exists children,
          componentOptions_children node = Some children
          /\ In y children /\ has_tag y = true)
  /\ (is_transition_group node = false ->
      _getChildItemsInColumnsArray c
      = fst <$> distribute (displayColumns c) (fillGaps c) (Some (node :: rest))).
Proof.
  intros Hs. unfold _getChildItemsInColumnsArray. rewrite Hs. simpl.
  split; intros Htg; rewrite Htg; [|reflexivity].
  split; [reflexivity|].
  intros columns j b y. unfold distribute.
  destruct (new_Array_fill0 (displayColumns c)) as [hs|]; [|discriminate].
  cbn [mbind result_bind].
  destruct (componentOptions_children node) as [children|]; [|discriminate].
  cbn [fmap result_fmap]. intros [= <-] Hb Hy.
  exists children. split; [reflexivity|].
  pose proof (forEach_place_spec (fillGaps c) (List.filter has_tag children) 0 []
                hs) as (Hget & _ & _).
  rewrite Hget in Hb. unfold array_get, extend in Hb. simpl in Hb.
  destruct (bucket j _ _) as [|z l] eqn:E; [discriminate|].
  injection Hb as <-. rewrite <- E in Hy.
  apply bucket_subset in Hy. apply filter_In in Hy. exact Hy.
Qed.

Lemma transition_group_unwrap_witness :
  let wrapper := VNode 9 (Some "transition-group") None
                   (Some (Some "transition-group", Some [child 0; child 1])) in
  let c := {| cols := VNum (num_of_Z 2); gutter := VNum (num_of_Z 0);
              fillGaps := false;
              slots_default := Some [wrapper; child 2; child 3];
              displayColumns := num_of_Z 2; displayGutter := VNum (num_of_Z 0);
              windowWidth := Some (num_of_Z 800); assigned := [] |} in
  _getChildItemsInColumnsArray c = Ok [Some [child 0]; Some [child 1]].
Proof.
  intros wrapper c.
  exact (proj1 (proj1 (transition_group_unwrap c wrapper [child 2; child 3] eq_refl)
                  eq_refl)).
Defined.

(** * Further properties of the resolver *)





(** ** The order of the keys *)

Lemma parseInt_throws_TypeError (v : value) (e : error) :
  parseInt v = Throw e -> e = TypeError.
Proof.
  destruct v as [| | b | n | s | o]; simpl; try discriminate.
  unfold ToString_obj. destruct (assoc "toString" o); [|discriminate].
  now intros [= <-].
Qed.

Lemma breakpoint_step_read (o : object) (W : num) (acc : bound * value) (k : string) :
  breakpoint_step o W (lift_acc acc) k
  = if read_completes o k then Ok (lift_acc (select o W acc k))
    else Throw TypeError.
Proof.
  destruct acc as [m mv]. unfold read_completes, breakpoint_step, lift_acc.
  cbn [fst snd].
  destruct (parseInt (get (key_of_pint (parseInt_str k)) o)) as [p|e] eqn:Ep.
  2:{ rewrite (parseInt_throws _ _ Ep).
      now rewrite (parseInt_throws_TypeError _ _ Ep). }
  assert (Hc : convertible (get (key_of_pint (parseInt_str k)) o) = true).
  { destruct (convertible _) eqn:Hc; [reflexivity|].
    destruct (get (key_of_pint (parseInt_str k)) o) as [| | | | |o0];
      try discriminate Hc.
    simpl in Hc, Ep. unfold ToString_obj in Ep.
    destruct (assoc "toString" o0); discriminate. }
  rewrite Hc. cbn [mbind result_bind]. unfold select. cbn [fst snd].
  destruct (parseInt_str k) as [b|] eqn:Ek; [|reflexivity].
  cbn [key_of_pint isNaN orb num_of_pint] in *. unfold usable, parses_num, get in *.
  destruct (assoc (numeral b) o) as [v|].
  - rewrite Ep. destruct p as [n|]; [|reflexivity]. cbn [isNaN andb].
    rewrite num_lt_bound.
    destruct (num_le W (num_of_Z b)); [|reflexivity].
    now destruct (below b m).
  - vm_compute in Ep. injection Ep as <-. reflexivity.
Qed.

Lemma breakpoint_loop_read (o : object) (W : num) (ks : list string)
    (acc : bound * value) :
  breakpoint_loop o W ks (lift_acc acc)
  = if forallb (read_completes o) ks
    then Ok (lift_acc (fold_left (select o W) ks acc))
    else Throw TypeError.
Proof.
  revert acc; induction ks as [|k ks IH]; intros acc; [reflexivity|].
  change (breakpoint_step o W (lift_acc acc) k ≫= breakpoint_loop o W ks
          = if read_completes o k && forallb (read_completes o) ks
            then Ok (lift_acc (fold_left (select o W) ks (select o W acc k)))
            else Throw TypeError).
  rewrite breakpoint_step_read.
  destruct (read_completes o k); [|reflexivity].
  cbn [mbind result_bind andb]. apply IH.
Qed.

(** The selection over [ks], with the key the chosen breakpoint comes
    from. *)
Lemma select_fold_key (o : object) (W : num) (ks : list string) (m : bound)
    (mv : value) :
  (fold_left (select o W) ks (m, mv) = (m, mv) /\
   forall k b, In k ks -> parseInt_str k = Some b ->
               usable o W b <> None -> below b m = false)
  \/
  (exists b v, fold_left (select o W) ks (m, mv) = (Some b, v)
     /\ usable o W b = Some v /\ below b m = true
     /\ (exists k, In k ks /\ parseInt_str k = Some b)
     /\ forall k b', In k ks -> parseInt_str k = Some b' ->
                     usable o W b' <> None -> b <= b').
Proof.
  revert m mv; induction ks as [|k ks IH]; intros m mv.
  { left; split; [reflexivity | intros k b []]. }
  cbn [fold_left].
  set (a := select o W (m, mv) k).
  assert (Ha : a = match parseInt_str k with
                   | Some b =>
                       match usable o W b with
                       | Some v => if below b m then (Some b, v) else (m, mv)
                       | None => (m, mv)
                       end
                   | None => (m, mv)
                   end) by reflexivity.
  clearbody a.
  assert (Hkeep : a = (m, mv) ->
            (forall b, parseInt_str k = Some b -> usable o W b <> None ->
                       below b m = false) ->
            (fold_left (select o W) ks a = (m, mv) /\
             forall k0 b, In k0 (k :: ks) -> parseInt_str k0 = Some b ->
                          usable o W b <> None -> below b m = false)
            \/
            (exists b v, fold_left (select o W) ks a = (Some b, v)
               /\ usable o W b = Some v /\ below b m = true
               /\ (exists k0, In k0 (k :: ks) /\ parseInt_str k0 = Some b)
               /\ forall k0 b', In k0 (k :: ks) -> parseInt_str k0 = Some b' ->
                                usable o W b' <> None -> b <= b')).
  { intros -> Hk. destruct (IH m mv) as [[E H]|(b & v & E & Eu & Eb & (k0 & Hin & Hp) & H)].
    - left; split; [exact E|]. intros k0 b [<-|Hin] Hp Hu; eauto.
    - right; exists b, v. repeat split; try assumption.
      + exists k0. split; [now right | exact Hp].
      + intros k1 b' [<-|Hin1] Hp1 Hu1; [|eauto].
        specialize (Hk _ Hp1 Hu1).
        destruct m as [m|]; simpl in *; [lia | discriminate]. }
  destruct (parseInt_str k) as [b|] eqn:Ek.
  2:{ apply Hkeep; [exact Ha | intros b [=]]. }
  destruct (usable o W b) as [v|] eqn:Eu.
  2:{ apply Hkeep; [exact Ha|]. intros b' [= <-] Hu. congruence. }
  destruct (below b m) eqn:Eb.
  2:{ apply Hkeep; [exact Ha|]. intros b' [= <-] _. exact Eb. }
  subst a. right.
  destruct (IH (Some b) v) as [[E H]|(b0 & v0 & E & Eu0 & Eb0 & (k0 & Hin & Hp) & H)].
  - exists b, v. repeat split; try assumption.
    + exists k. split; [now left | exact Ek].
    + intros k1 b' [<-|Hin1] Hp1 Hu1.
      * assert (b' = b) by congruence. lia.
      * specialize (H _ _ Hin1 Hp1 Hu1). simpl in H. lia.
  - exists b0, v0. simpl in Eb0. repeat split; try assumption.
    + destruct m as [m|]; simpl in *; [lia | reflexivity].
    + exists k0. split; [now right | exact Hp].
    + intros k1 b' [<-|Hin1] Hp1 Hu1; [|eauto].
      assert (b' = b) by congruence. lia.
Qed.

Lemma select_fold_permutation (o : object) (W : num) (ks ks' : list string)
    (m : bound) (mv : value) :
  Permutation ks ks' ->
  fold_left (select o W) ks (m, mv) = fold_left (select o W) ks' (m, mv).
Proof.
  intros Hperm.
  assert (Hin : forall k, In k ks <-> In k ks').
  { intros k; split; apply Permutation_in; [exact Hperm | now symmetry]. }
  destruct (select_fold_key o W ks m mv)
    as [[E H]|(b & v & E & Eu & Eb & (k & Hk & Hp) & H)];
  destruct (select_fold_key o W ks' m mv)
    as [[E' H']|(b' & v' & E' & Eu' & Eb' & (k' & Hk' & Hp') & H')];
  rewrite E, E'.
  - reflexivity.
  - exfalso. apply Hin in Hk'. specialize (H _ _ Hk' Hp').
    rewrite Eu' in H. rewrite H in Eb'; [discriminate Eb' | discriminate].
  - exfalso. apply Hin in Hk. specialize (H' _ _ Hk Hp).
    rewrite Eu in H'. rewrite H' in Eb; [discriminate Eb | discriminate].
  - assert (b <= b').
    { apply (H k'); [now apply Hin | exact Hp' | rewrite Eu'; discriminate]. }
    assert (b' <= b).
    { apply (H' k); [now apply Hin | exact Hp | rewrite Eu; discriminate]. }
    assert (b' = b) by lia. subst b'. congruence.
Qed.

Lemma In_assoc (k : string) (v : value) (o : object) :
  List.NoDup (keys o) -> In (k, v) o -> assoc k o = Some v.
Proof.
  induction o as [|[k' v'] o IH]; simpl; [tauto|].
  intros Hnd [[= -> ->]|Hin].
  - now rewrite String.eqb_refl.
  - apply List.NoDup_cons_iff in Hnd as [Hnotin Hnd].
    destruct (String.eqb_spec k k') as [->|Hne]; [|now apply IH].
    exfalso. apply Hnotin. unfold keys. apply in_map_iff. now exists (k', v).
Qed.

Lemma assoc_permutation (k : string) (o o' : object) :
  List.NoDup (keys o) -> Permutation o o' -> assoc k o = assoc k o'.
Proof.
  intros Hnd Hperm.
  assert (Hnd' : List.NoDup (keys o')).
  { unfold keys. eapply Permutation_NoDup; [|exact Hnd]. now apply Permutation_map. }
  destruct (assoc k o) as [v|] eqn:E.
  - symmetry. apply In_assoc; [exact Hnd'|].
    eapply Permutation_in; [exact Hperm | now apply assoc_In].
  - destruct (assoc k o') as [v'|] eqn:E'; [|reflexivity].
    apply assoc_In in E'. apply Permutation_sym in Hperm.
    apply (Permutation_in _ Hperm) in E'. apply In_assoc in E'; [congruence | exact Hnd].
Qed.

Lemma forallb_permutation (o : object) (ks ks' : list string) :
  Permutation ks ks' ->
  forallb (read_completes o) ks = forallb (read_completes o) ks'.
Proof.
  intros Hperm.
  destruct (forallb (read_completes o) ks) eqn:E, (forallb (read_completes o) ks') eqn:E';
    try reflexivity.
  - rewrite forallb_forall in E.
    assert (forallb (read_completes o) ks' = true); [|congruence].
    apply forallb_forall. intros k Hk. apply E.
    eapply Permutation_in; [symmetry; exact Hperm | exact Hk].
  - rewrite forallb_forall in E'.
    assert (forallb (read_completes o) ks = true); [|congruence].
    apply forallb_forall. intros k Hk. apply E'.
    eapply Permutation_in; [exact Hperm | exact Hk].
Qed.

(** X2.  The order in which [for (let k in mixed)] meets the keys does not
    matter: two mappings with the same entries, the keys being distinct,
    resolve alike at every width, a thrown error included. *)
Theorem breakpointValue_key_order (o o' : object) (W : num) :
  List.NoDup (keys o) -> Permutation o o' ->
  breakpointValue (VObj o) W = breakpointValue (VObj o') W.
Proof.
  intros Hnd Hperm.
  assert (Ha : forall k, assoc k o' = assoc k o).
  { intros k. symmetry. now apply assoc_permutation. }
  assert (Hu : forall b, usable o' W b = usable o W b).
  { intros b. unfold usable. now rewrite Ha. }
  assert (Hsel : forall ks acc,
             fold_left (select o' W) ks acc = fold_left (select o W) ks acc).
  { induction ks as [|k ks IH]; intros acc; [reflexivity|]. simpl.
    rewrite IH. f_equal. unfold select. destruct (parseInt_str k); [|reflexivity].
    now rewrite Hu. }
  assert (Hread : forall ks, forallb (read_completes o') ks
                             = forallb (read_completes o) ks).
  { induction ks as [|k ks IH]; [reflexivity|]. simpl. rewrite IH. f_equal.
    unfold read_completes, get. now rewrite Ha. }
  assert (Hkeys : Permutation (keys o) (keys o')) by now apply Permutation_map.
  unfold breakpointValue, parseInt, ToString_obj. rewrite Ha.
  destruct (assoc "toString" o); [reflexivity|].
  cbn [mbind result_bind]. change (parseInt_str "[object Object]") with (@None Z).
  cbn [num_of_pint num_lt num_of_Z]. rewrite !value_or_default.
  change (PInf, default_or_zero o) with (lift_acc (None, default_or_zero o)).
  change (PInf, default_or_zero o') with (lift_acc (None, default_or_zero o')).
  rewrite !breakpoint_loop_read, Hread, Hsel.
  assert (Hd : default_or_zero o' = default_or_zero o).
  { unfold default_or_zero. now rewrite Ha. }
  rewrite Hd.
  rewrite (forallb_permutation o (keys o) (keys o') Hkeys).
  now rewrite (select_fold_permutation o W (keys o) (keys o') None _ Hkeys).
Qed.

Lemma breakpointValue_key_order_witness :
  breakpointValue
    (VObj [("default", VNum (num_of_Z 4)); ("700", VStr "2"); ("400", VStr "1")])
    (num_of_Z 500)
  = breakpointValue
      (VObj [("400", VStr "1"); ("700", VStr "2"); ("default", VNum (num_of_Z 4))])
      (num_of_Z 500).
Proof.
  apply breakpointValue_key_order.
  - repeat constructor; simpl; intuition discriminate.
  - apply Permutation_rev.
Defined.

(** ** Between two breakpoints *)

Lemma num_le_trans (a b c : num) :
  num_le a b = true -> num_le b c = true -> num_le a c = true.
Proof.
  destruct a as [| | |p], b as [| | |q], c as [| | |r]; simpl;
    try discriminate; try reflexivity.
  rewrite !Qle_bool_iff. apply Qle_trans.
Qed.

Lemma least_usable_value (o : object) (W : num) (b : Z) (v : value) :
  plain_mapping o = true ->
  usable o W b = Some v ->
  (forall b', usable o W b' <> None -> b <= b') ->
  breakpointValue (VObj o) W = Ok v.
Proof.
  intros Hplain Hu Hmin.
  rewrite (breakpointValue_mapping o W Hplain). f_equal.
  assert (Hk : In (numeral b) (keys o)).
  { apply usable_Some in Hu as (Ha & _). eapply assoc_keys; eauto. }
  destruct (select_fold_key o W (keys o) None (default_or_zero o))
    as [[_ H]|(b0 & v0 & E & Eu & _ & _ & H)].
  - specialize (H _ _ Hk (parseInt_str_numeral b)). rewrite Hu in H.
    discriminate H. discriminate.
  - rewrite E. simpl.
    assert (b0 <= b).
    { apply (H _ _ Hk (parseInt_str_numeral b)). rewrite Hu; discriminate. }
    assert (b <= b0) by (apply Hmin; rewrite Eu; discriminate).
    assert (b0 = b) by lia. subst b0. congruence.
Qed.

(** X3.  The resolved value is constant between a width and the breakpoint
    chosen for it: if the numeral key [b] is the least usable one at the
    width [W], it is also the one chosen at every width from [W] up to
    [b]. *)
Theorem breakpointValue_stable (o : object) (W W' : num) (b : Z) (v : value) :
  plain_mapping o = true ->
  usable o W b = Some v ->
  (forall b', usable o W b' <> None -> b <= b') ->
  num_le W W' = true -> num_le W' (num_of_Z b) = true ->
  breakpointValue (VObj o) W' = breakpointValue (VObj o) W.
Proof.
  intros Hplain Hu Hmin Hle Hle'.
  rewrite (least_usable_value o W b v Hplain Hu Hmin).
  apply (least_usable_value o W' b v Hplain).
  - apply usable_Some in Hu as (Ha & Hp & _). apply usable_Some. auto.
  - intros b' Hu'. apply Hmin.
    destruct (usable o W' b') as [v'|] eqn:E; [|congruence].
    apply usable_Some in E as (Ha & Hp & Hl).
    assert (Hx : usable o W b' = Some v').
    { apply usable_Some. repeat split; auto. eapply num_le_trans; eauto. }
    rewrite Hx. discriminate.
Qed.

Lemma least_usable_all (o : object) (W : num) (b : Z) :
  least_usable o W b = true -> forall b', usable o W b' <> None -> b <= b'.
Proof.
  intros H b' Hu. destruct (usable o W b') as [v'|] eqn:E; [|congruence].
  apply usable_Some in E as (Ha & Hp & Hl).
  exact (least_usable_spec o W b H b' v' Ha Hp Hl).
Qed.

Lemma breakpointValue_stable_witness :
  let o := [("default", VNum (num_of_Z 4)); ("400", VStr "1"); ("700", VStr "2")] in
  breakpointValue (VObj o) (num_of_Z 650) = breakpointValue (VObj o) (num_of_Z 401).
Proof.
  intros o.
  apply (breakpointValue_stable o (num_of_Z 401) (num_of_Z 650) 700 (VStr "2"));
    try reflexivity.
  apply least_usable_all. reflexivity.
Defined.

(** ** Fixed numbers *)

Lemma Qtrunc_above (q : Q) : (-1 <? Qtrunc q) = negb (Qle_bool q (inject_Z (-1))).
Proof.
  destruct q as [a b]. unfold Qtrunc, Qle_bool. cbn [Qnum Qden inject_Z].
  apply eq_true_iff_eq. rewrite negb_true_iff, Z.ltb_lt, Z.leb_gt.
  destruct (Z.le_gt_cases 0 a) as [Ha|Ha].
  - pose proof (Z.quot_pos a (Z.pos b) Ha ltac:(lia)). lia.
  - rewrite <- (Z.opp_involutive a) at 1. rewrite Z.quot_opp_l by lia.
    assert (H0 : 0 <= - a) by lia.
    pose proof (Z.quot_pos (- a) (Z.pos b) H0 ltac:(lia)) as Hq.
    split; intros H.
    + assert (Hz : Z.quot (- a) (Z.pos b) = 0) by lia.
      apply Z.quot_small_iff in Hz; lia.
    + rewrite Z.quot_small; lia.
Qed.

(** X4.  A finite number that prints in fixed notation (0, or of magnitude
    from 10^-6 up to 10^21) is returned unchanged exactly when it is above
    -1, and resolves to 0 otherwise: -10 gives 0, while -0.5, whose integer
    part is 0, is returned as it is. *)
Theorem breakpointValue_number (q : Q) (W : num) :
  fixed_notation q = true ->
  breakpointValue (VNum (Fin q)) W
  = Ok (if Qle_bool q (inject_Z (-1)) then VNum (num_of_Z 0) else VNum (Fin q)).
Proof.
  intros Hfix. unfold breakpointValue, parseInt, parseInt_num. rewrite Hfix.
  cbn [mbind result_bind num_of_pint]. rewrite num_lt_Z, Qtrunc_above.
  now destruct (Qle_bool q (inject_Z (-1))).
Qed.

Lemma breakpointValue_number_witness :
  breakpointValue (VNum (Fin (-1 # 2))) (num_of_Z 800) = Ok (VNum (Fin (-1 # 2)))
  /\ breakpointValue (VNum (num_of_Z (-10))) (num_of_Z 800) = Ok (VNum (num_of_Z 0)).
Proof.
  split.
  - exact (breakpointValue_number (-1 # 2) (num_of_Z 800) eq_refl).
  - exact (breakpointValue_number (inject_Z (-10)) (num_of_Z 800) eq_refl).
Defined.

(** ** Keys that are no numerals *)




(** * Further properties of the controller *)

Lemma reCalculate_displayColumns (h : host) (c : component) :
  num_le (num_of_Z 1) (displayColumns c) = true ->
  num_le (num_of_Z 1) (displayColumns (component_of (reCalculate h c))) = true.
Proof.
  intros Hc. unfold reCalculate.
  destruct (current_width h) as [w|e]; [|exact Hc].
  destruct (same_width (windowWidth c) w); [exact Hc|].
  unfold _reCalculateColumnCount.
  destruct (breakpointValue (cols (set_windowWidth w c)) w ≫= Number) as [n|e];
    [|exact Hc].
  unfold _reCalculateGutterSize.
  destruct (breakpointValue _ w); apply Math_max_one.
Qed.

Lemma reCalculate_windowWidth (h : host) (c : component) :
  match windowWidth c with Some w => num_truthy w = true | None => True end ->
  match windowWidth (component_of (reCalculate h c)) with
  | Some w => num_truthy w = true
  | None => True
  end.
Proof.
  intros Hc. destruct (current_width h) as [w|e] eqn:Hw.
  - rewrite (reCalculate_records_width h c w Hw).
    destruct h as [| |i]; simpl in Hw; try discriminate.
    + now injection Hw as <-.
    + injection Hw as <-. unfold num_or.
      destruct (num_truthy i) eqn:E; [exact E | reflexivity].
  - unfold reCalculate. rewrite Hw. exact Hc.
Qed.

(** X6.  Whatever happens to a component after [data ()] (runs of
    [reCalculate] on any hosts, returning or throwing, and new props in
    between), [displayColumns] is a number that is at least 1 and the
    recorded width, once there is one, is neither 0 nor [NaN]. *)
Theorem display_state_invariant (es : list event) (cols gutter : value)
    (fillGaps : bool) (slots_default : option (list vnode)) :
  let c := fold_left after_event es (data cols gutter fillGaps slots_default) in
  num_le (num_of_Z 1) (displayColumns c) = true
  /\ match windowWidth c with
     | Some w => num_truthy w = true
     | None => True
     end.
Proof.
  cbv zeta.
  assert (Hinv : forall c,
    num_le (num_of_Z 1) (displayColumns c) = true
    /\ match windowWidth c with Some w => num_truthy w = true | None => True end ->
    let c' := fold_left after_event es c in
    num_le (num_of_Z 1) (displayColumns c') = true
    /\ match windowWidth c' with Some w => num_truthy w = true | None => True end).
  { induction es as [|e es IH]; intros c Hc; [exact Hc|].
    simpl. apply IH. destruct Hc as [H1 H2]. destruct e as [h|c0 g0 f0 s0]; simpl.
    - split; [now apply reCalculate_displayColumns | now apply reCalculate_windowWidth].
    - split; assumption. }
  apply Hinv. split; reflexivity.
Qed.

(** ** Column counts given as integers *)









(** ** A run that throws *)

(** X8.  When a run throws on a host with a [window], the width has been
    recorded all the same and [displayGutter] keeps the value it had; the
    next run on that host returns at the guard, so the error is not raised
    again and the values that were not resolved stay as they are until the
    width changes. *)
Theorem reCalculate_error_masked (h : host) (c c1 : component) (e : error) :
  h <> WindowUnbound ->
  reCalculate h c = Raised e c1 ->
  displayGutter c1 = displayGutter c
  /\ exists c2,
       reCalculate h c1 = Done c2
       /\ displayColumns c2 = displayColumns c1
       /\ displayGutter c2 = displayGutter c1
       /\ assigned c2 = assigned c1.
Proof.
  intros Hh Hr.
  destruct (current_width h) as [w|e0] eqn:Hw.
  2:{ destruct h; try discriminate Hw. contradiction. }
  split.
  - unfold reCalculate in Hr. rewrite Hw in Hr.
    destruct (same_width (windowWidth c) w); [discriminate|].
    unfold _reCalculateColumnCount in Hr.
    destruct (breakpointValue (cols (set_windowWidth w c)) w ≫= Number) as [n|e1].
    + unfold _reCalculateGutterSize in Hr.
      destruct (breakpointValue _ w); [discriminate|]. now injection Hr as _ <-.
    + now injection Hr as _ <-.
  - pose proof (reCalculate_records_width h c w Hw) as Hrec.
    rewrite Hr in Hrec. simpl in Hrec.
    rewrite (reCalculate_guard h c1 w w Hrec Hw).
    + eexists; repeat split.
    + apply num_strict_eq_refl. eapply current_width_not_NaN; eauto.
Qed.

Lemma reCalculate_error_masked_witness :
  let c := data VNull (VStr "10px") false None in
  let c1 := set_windowWidth (num_of_Z 800) c in
  displayGutter c1 = displayGutter c
  /\ exists c2,
       reCalculate (Window (num_of_Z 800)) c1 = Done c2
       /\ displayColumns c2 = displayColumns c1
       /\ displayGutter c2 = displayGutter c1
       /\ assigned c2 = assigned c1.
Proof.
  intros c c1.
  apply (reCalculate_error_masked (Window (num_of_Z 800)) c c1 TypeError).
  - discriminate.
  - reflexivity.
Defined.

(** * Further properties of the distributor *)


(** ** No child lost, none twice *)

Lemma nodes_of_replicate_None (n : nat) : nodes_of (replicate n None) = [].
Proof. induction n as [|n IH]; [reflexivity | exact IH]. Qed.

Lemma nodes_of_set_empty (j : nat) (cols : columns) :
  array_get j cols = None -> nodes_of (array_set j [] cols) = nodes_of cols.
Proof.
  unfold array_set, array_get, nodes_of.
  destruct (Nat.ltb_spec j (length cols)) as [Hlt|Hge].
  - clear Hlt. revert j; induction cols as [|c cols IH]; intros [|j]; simpl;
      try reflexivity.
    + destruct c; [discriminate | reflexivity].
    + intros H. now rewrite IH.
  - intros _. rewrite !flat_map_app.
    fold (nodes_of (replicate (j - length cols) None)).
    rewrite nodes_of_replicate_None. simpl. now rewrite app_nil_r.
Qed.

Lemma nodes_of_push (j : nat) (x : vnode) (b : list vnode) (cols : columns) :
  array_get j cols = Some b ->
  Permutation (nodes_of (array_push j x cols)) (x :: nodes_of cols).
Proof.
  unfold array_get, array_push, nodes_of.
  revert j; induction cols as [|c cols IH]; intros [|j]; simpl; try discriminate.
  - intros ->. simpl. rewrite <- app_assoc. simpl.
    symmetry. apply Permutation_middle.
  - intros H. rewrite (IH j H). symmetry. apply Permutation_middle.
Qed.

Lemma place_nodes (fillGaps : bool) (cols : columns) (heights : list Z)
    (index : nat) (x : vnode) :
  heights <> [] ->
  Permutation (nodes_of (place fillGaps (cols, heights) index x).1)
    (x :: nodes_of cols).
Proof.
  intros Hne.
  assert (Hput : forall j,
    Permutation
      (nodes_of (array_push j x
                   match array_get j cols with
                   | Some _ => cols
                   | None => array_set j [] cols
                   end))
      (x :: nodes_of cols)).
  { intros j. destruct (array_get j cols) as [b|] eqn:E.
    - now apply (nodes_of_push j x b).
    - rewrite (nodes_of_push j x []).
      + now rewrite nodes_of_set_empty.
      + rewrite array_get_set. now rewrite decide_True. }
  assert (Hmod : exists j, index_mod index (length heights) = Some j).
  { unfold index_mod. destruct (Nat.eqb_spec (length heights) 0) as [E|E]; [|eauto].
    destruct heights; [contradiction | discriminate]. }
  destruct Hmod as [jm Ejm].
  destruct (getShortestColumnIndex_first_min heights Hne) as (js & Ejs & _).
  unfold place. rewrite Ejm.
  destruct fillGaps, (vnode_elm x) as [h|]; cbv zeta; rewrite ?Ejs; apply Hput.
Qed.

Lemma length_place_heights (fillGaps : bool) (st : columns * list Z)
    (index : nat) (x : vnode) :
  length (place fillGaps st index x).2 = length st.2.
Proof.
  destruct st as [cols hs]. rewrite place_heights. apply length_grown_heights.
Qed.

Lemma forEach_place_nodes (fillGaps : bool) (xs : list vnode) (index : nat)
    (cols : columns) (heights : list Z) :
  heights <> [] ->
  Permutation (nodes_of (forEach_place fillGaps xs index (cols, heights)).1)
    (nodes_of cols ++ xs).
Proof.
  revert index cols heights; induction xs as [|x xs IH]; intros index cols heights Hne.
  { simpl. now rewrite app_nil_r. }
  change (forEach_place fillGaps (x :: xs) index (cols, heights))
    with (forEach_place fillGaps xs (S index) (place fillGaps (cols, heights) index x)).
  pose proof (place_nodes fillGaps cols heights index x Hne) as Hp.
  pose proof (length_place_heights fillGaps (cols, heights) index x) as Hl.
  destruct (place fillGaps (cols, heights) index x) as [cols1 hs1].
  simpl in Hp, Hl. rewrite IH.
  - rewrite Hp. simpl. apply Permutation_middle.
  - intros ->. destruct heights; [contradiction | discriminate].
Qed.

(** X10.  For a column count [n >= 1] (an array length), in either mode, the
    buckets taken together hold exactly the tagged children: each one is in
    one bucket, once. *)
Theorem distribution_is_partition (c : component) (n : nat) (vs : list vnode) :
  column_count (displayColumns c) n -> (1 <= n)%nat -> Z.of_nat n < 2 ^ 32 ->
  unwrap (default [] (slots_default c)) = Some vs ->
  exists columns,
    _getChildItemsInColumnsArray c = Ok columns
    /\ Permutation (nodes_of columns) (List.filter has_tag vs).
Proof.
  intros Hc Hn Hlt Hu. rewrite (getChildItems_unwrapped c n vs) by assumption.
  eexists; split; [reflexivity|].
  rewrite forEach_place_nodes; [reflexivity|].
  destruct n; [lia | discriminate].
Qed.

Lemma distribution_is_partition_witness :
  let vs := [measured 0 5; child 1; VNode 2 None None None; measured 3 1] in
  let c := {| cols := VNum (num_of_Z 2); gutter := VNum (num_of_Z 0);
              fillGaps := true; slots_default := Some vs;
              displayColumns := num_of_Z 2; displayGutter := VNum (num_of_Z 0);
              windowWidth := Some (num_of_Z 800); assigned := [] |} in
  exists columns,
    _getChildItemsInColumnsArray c = Ok columns
    /\ Permutation (nodes_of columns) [measured 0 5; child 1; measured 3 1].
Proof.
  intros vs c.
  refine (distribution_is_partition c 2 vs _ _ _ eq_refl).
  - reflexivity.
  - lia.
  - reflexivity.
Defined.

(** ** The first pass *)

Lemma forEach_place_unmeasured (xs : list vnode) (index : nat)
    (st : columns * list Z) :
  Forall (fun x => vnode_elm x = None) xs ->
  forEach_place true xs index st = forEach_place false xs index st.
Proof.
  intros H. revert index st; induction H as [|x xs Hx _ IH]; intros index st;
    [reflexivity|].
  simpl. rewrite IH. f_equal. destruct st as [cols hs]. unfold place. now rewrite Hx.
Qed.

(** X11.  With [fillGaps], as long as no tagged child is mounted (the first
    render), the distribution is the round-robin one. *)
Theorem first_pass_round_robin (c : component) (n : nat) (vs : list vnode) :
  fillGaps c = true ->
  column_count (displayColumns c) n -> (1 <= n)%nat -> Z.of_nat n < 2 ^ 32 ->
  unwrap (default [] (slots_default c)) = Some vs ->
  Forall (fun x => vnode_elm x = None) (List.filter has_tag vs) ->
  _getChildItemsInColumnsArray c = Ok (round_robin n (List.filter has_tag vs)).
Proof.
  intros Hfg Hc Hn Hlt Hu Hall.
  rewrite (getChildItems_unwrapped c n vs) by assumption. rewrite Hfg.
  rewrite forEach_place_unmeasured by exact Hall.
  now rewrite forEach_place_round_robin.
Qed.

Lemma first_pass_round_robin_witness :
  let c := {| cols := VNum (num_of_Z 2); gutter := VNum (num_of_Z 0);
              fillGaps := true;
              slots_default := Some [child 0; child 1; child 2];
              displayColumns := num_of_Z 2; displayGutter := VNum (num_of_Z 0);
              windowWidth := Some (num_of_Z 800); assigned := [] |} in
  _getChildItemsInColumnsArray c = Ok [Some [child 0; child 2]; Some [child 1]].
Proof.
  intros c.
  refine (first_pass_round_robin c 2 [child 0; child 1; child 2]
            eq_refl _ _ _ eq_refl _).
  - reflexivity.
  - lia.
  - reflexivity.
  - repeat constructor.
Defined.

(** ** What the accumulators hold *)

Lemma column_height_snoc (b : list vnode) (x : vnode) :
  column_height (b ++ [x]) = column_height b + measured_height x.
Proof.
  unfold column_height. induction b as [|y b IH]; simpl; [lia|]. rewrite IH. lia.
Qed.

Lemma place_heights_match (st : columns * list Z) (index : nat) (x : vnode) :
  heights_match st -> heights_match (place true st index x).
Proof.
  destruct st as [cols hs]. intros Hm j h.
  pose proof (place_heights true cols hs index x) as Hh.
  pose proof (place_columns true cols hs index x) as Hc. cbv zeta in Hc.
  destruct (place true (cols, hs) index x) as [cols1 hs1]. simpl in Hh, Hc |- *.
  subst hs1. unfold grown_heights. unfold chosen_column in Hc.
  unfold heights_match in Hm. simpl in Hm.
  destruct (vnode_elm x) as [hx|] eqn:Ex.
  - destruct (getShortestColumnIndex hs) as [c|] eqn:Ec.
    + destruct Hc as [Hget _]. rewrite Hget.
      destruct (decide (j = c)) as [->|Hne].
      * rewrite list_lookup_alter_eq. destruct (hs !! c) as [h0|] eqn:E0; [|discriminate].
        simpl. intros [= <-]. rewrite column_height_snoc.
        unfold measured_height. rewrite Ex. simpl. now rewrite (Hm c h0 E0).
      * rewrite list_lookup_alter_ne by congruence. apply Hm.
    + subst cols1. apply Hm.
  - destruct (index_mod index (length hs)) as [c|] eqn:Ec.
    + destruct Hc as [Hget _]. rewrite Hget. intros Hj.
      destruct (decide (j = c)) as [->|Hne]; [|now apply Hm].
      simpl. rewrite column_height_snoc. unfold measured_height. rewrite Ex.
      simpl. rewrite <- (Hm c h Hj). lia.
    + subst cols1. apply Hm.
Qed.

Lemma forEach_place_heights_match (xs : list vnode) (index : nat)
    (st : columns * list Z) :
  heights_match st -> heights_match (forEach_place true xs index st).
Proof.
  revert index st; induction xs as [|x xs IH]; intros index st Hm; [exact Hm|].
  simpl. apply IH. now apply place_heights_match.
Qed.

Lemma new_Array_fill0_zeros (dc : num) (hs : list Z) :
  new_Array_fill0 dc = Ok hs -> exists n, hs = replicate n 0.
Proof.
  unfold new_Array_fill0. destruct dc as [| | |q]; try discriminate.
  destruct (Qred q) as [a b].
  destruct ((b =? 1)%positive && (0 <=? a) && (a <? 2 ^ 32)); [|discriminate].
  intros [= <-]. eauto.
Qed.

Lemma accumulators_sum
    (dc : num) (vs : list vnode) (columns : list (option (list vnode)))
    (heights : list Z) (j : nat) (h : Z) :
  distribute dc true (Some vs) = Ok (columns, heights) ->
  heights !! j = Some h ->
  h = column_height (default [] (array_get j columns)).
Proof.
  unfold distribute.
  destruct (new_Array_fill0 dc) as [hs0|e] eqn:E0; [|discriminate].
  cbn [mbind result_bind]. intros [= Hst].
  assert (Hinit : heights_match ([], hs0)).
  { intros i hi Hi. cbn [fst snd] in *.
    destruct (new_Array_fill0_zeros dc hs0 E0) as [n ->].
    apply lookup_replicate_1 in Hi as [-> _]. reflexivity. }
  pose proof (forEach_place_heights_match (List.filter has_tag vs) 0 _ Hinit) as Hm.
  rewrite Hst in Hm. exact (Hm j h).
Qed.

(** X12.  With [fillGaps], when the method is done each accumulator is the
    total measured height of the children of its column, a child that was
    not mounted counting for nothing. *)
Theorem accumulators_are_column_heights
    (dc : num) (vs : list vnode) (columns : list (option (list vnode)))
    (heights : list Z) (j : nat) (h : Z) :
  distribute dc true (Some vs) = Ok (columns, heights) ->
  heights !! j = Some h ->
  h = column_height (default [] (array_get j columns)).
Proof. apply accumulators_sum. Qed.

Lemma accumulators_are_column_heights_witness :
  5 = column_height [measured 0 5]
  /\ 2 = column_height [measured 1 1; measured 2 1; child 3].
Proof.
  split.
  - apply (accumulators_are_column_heights (num_of_Z 2)
             [measured 0 5; measured 1 1; measured 2 1; child 3]
             [Some [measured 0 5]; Some [measured 1 1; measured 2 1; child 3]]
             [5; 2] 0 5); reflexivity.
  - apply (accumulators_are_column_heights (num_of_Z 2)
             [measured 0 5; measured 1 1; measured 2 1; child 3]
             [Some [measured 0 5]; Some [measured 1 1; measured 2 1; child 3]]
             [5; 2] 1 2); reflexivity.
Defined.

(** ** How far apart the columns end up *)

Lemma grown_heights_spread (H : Z) (hs : list Z) (x : vnode) :
  is_measured x = true -> measured_height x <= H ->
  spread_within H hs -> spread_within H (grown_heights true hs x).
Proof.
  unfold is_measured, measured_height, grown_heights.
  destruct (vnode_elm x) as [h|]; [|discriminate]. simpl.
  intros Hpos%Z.leb_le HH Hs.
  destruct hs as [|h0 hs0] eqn:Ehs; [exact Hs|]. rewrite <- Ehs in *.
  destruct (getShortestColumnIndex_first_min hs) as (c & -> & (m & Hm & Hall & _)).
  { rewrite Ehs. discriminate. }
  intros i j hi hj Hi Hj.
  destruct (decide (i = c)) as [->|Hic], (decide (j = c)) as [->|Hjc].
  - rewrite Hi in Hj. injection Hj as <-. lia.
  - rewrite list_lookup_alter_eq, Hm in Hi. injection Hi as <-.
    rewrite list_lookup_alter_ne in Hj by congruence.
    specialize (Hall _ _ Hj). lia.
  - rewrite list_lookup_alter_eq, Hm in Hj. injection Hj as <-.
    rewrite list_lookup_alter_ne in Hi by congruence.
    specialize (Hs _ _ _ _ Hi Hm). lia.
  - rewrite list_lookup_alter_ne in Hi, Hj by congruence. eauto.
Qed.

Lemma forEach_place_spread (H : Z) (xs : list vnode) (index : nat)
    (st : columns * list Z) :
  Forall (fun x => is_measured x = true /\ measured_height x <= H) xs ->
  spread_within H st.2 ->
  spread_within H (forEach_place true xs index st).2.
Proof.
  intros Hall. revert index st; induction Hall as [|x xs [Hx HxH] _ IH];
    intros index st Hs; [exact Hs|].
  simpl. apply IH. destruct st as [cols hs]. rewrite place_heights.
  now apply grown_heights_spread.
Qed.

Lemma tallest_bound (xs : list vnode) :
  0 <= tallest xs /\ Forall (fun x => measured_height x <= tallest xs) xs.
Proof.
  induction xs as [|x xs [IH0 IH]]; simpl; [split; [lia | constructor]|].
  split; [lia|]. constructor; [lia|].
  eapply Forall_impl; [exact IH|]. simpl. intros y Hy. lia.
Qed.

(** X13.  With [fillGaps], when every tagged child is mounted with a height
    that is not negative, the total heights of any two of the [n] columns
    differ by no more than the height of the tallest child. *)
Theorem fill_gaps_balance (c : component) (n : nat) (vs : list vnode)
    (columns : list (option (list vnode))) (i j : nat) :
  fillGaps c = true ->
  column_count (displayColumns c) n -> Z.of_nat n < 2 ^ 32 ->
  unwrap (default [] (slots_default c)) = Some vs ->
  Forall (fun x => is_measured x = true) (List.filter has_tag vs) ->
  _getChildItemsInColumnsArray c = Ok columns ->
  (i < n)%nat -> (j < n)%nat ->
  column_height (default [] (array_get i columns))
  - column_height (default [] (array_get j columns))
  <= tallest (List.filter has_tag vs).
Proof.
  intros Hfg Hc Hlt Hu Hall Hr Hi Hj.
  set (fs := List.filter has_tag vs) in *.
  set (st := forEach_place true fs 0 ([], replicate n 0)).
  assert (Hd : distribute (displayColumns c) true (Some vs) = Ok st).
  { now rewrite (distribute_count _ n). }
  assert (Hcols : columns = st.1).
  { unfold _getChildItemsInColumnsArray in Hr. rewrite Hu, Hfg, Hd in Hr.
    now injection Hr as <-. }
  destruct (tallest_bound fs) as [H0 Hb].
  assert (Hs : spread_within (tallest fs) st.2).
  { apply forEach_place_spread.
    - rewrite Forall_forall in *. intros x Hx. split; [apply Hall, Hx | apply Hb, Hx].
    - intros a b ha hb Ha Hb'. simpl in *.
      apply lookup_replicate_1 in Ha as [-> _].
      apply lookup_replicate_1 in Hb' as [-> _]. lia. }
  assert (Hlen : length st.2 = n).
  { pose proof (forEach_place_spec true fs 0 [] (replicate n 0)) as (_ & H & _).
    now rewrite length_replicate in H. }
  destruct (lookup_lt_is_Some_2 st.2 i) as [hi Ehi]; [lia|].
  destruct (lookup_lt_is_Some_2 st.2 j) as [hj Ehj]; [lia|].
  destruct st as [cols hs] eqn:Est. simpl in *. subst columns.
  rewrite <- (accumulators_sum (displayColumns c) vs cols hs i hi Hd Ehi).
  rewrite <- (accumulators_sum (displayColumns c) vs cols hs j hj Hd Ehj).
  exact (Hs _ _ _ _ Ehi Ehj).
Qed.

Lemma fill_gaps_balance_witness :
  column_height [measured 0 5] - column_height [measured 1 1; measured 2 1]
  <= tallest [measured 0 5; measured 1 1; measured 2 1].
Proof.
  set (vs := [measured 0 5; measured 1 1; measured 2 1]).
  set (c := {| cols := VNum (num_of_Z 2); gutter := VNum (num_of_Z 0);
               fillGaps := true; slots_default := Some vs;
               displayColumns := num_of_Z 2; displayGutter := VNum (num_of_Z 0);
               windowWidth := Some (num_of_Z 800); assigned := [] |}).
  refine (fill_gaps_balance c 2 vs
            [Some [measured 0 5]; Some [measured 1 1; measured 2 1]] 0 1
            eq_refl _ _ eq_refl _ eq_refl _ _).
  - reflexivity.
  - reflexivity.
  - repeat constructor.
  - lia.
  - lia.
Defined.

(** ** One column, no column *)

Lemma bucket_all (j : nat) (a : list (option nat)) (xs : list vnode) :
  length a = length xs -> Forall (fun col => col = Some j) a ->
  bucket j a xs = xs.
Proof.
  intros Hlen Hall. revert xs Hlen; induction Hall as [|col a -> _ IH];
    intros [|x xs] Hlen; try discriminate; [reflexivity|].
  simpl. rewrite decide_True by reflexivity. f_equal. apply IH.
  now injection Hlen.
Qed.

Lemma length_assignment (fillGaps : bool) (heights : list Z) (index : nat)
    (xs : list vnode) :
  length (assignment fillGaps heights index xs) = length xs.
Proof.
  revert heights index; induction xs as [|x xs IH]; intros heights index;
    [reflexivity|].
  simpl. now rewrite IH.
Qed.

Lemma assignment_single (fillGaps : bool) (heights : list Z) (index : nat)
    (xs : list vnode) :
  length heights = 1%nat ->
  Forall (fun col => col = Some 0%nat) (assignment fillGaps heights index xs).
Proof.
  revert heights index; induction xs as [|x xs IH]; intros heights index Hlen;
    [constructor|].
  simpl. constructor.
  - pose proof (chosen_column_lt fillGaps heights index x) as Hlt.
    destruct (chosen_column fillGaps heights index x) as [j|] eqn:E.
    + specialize (Hlt j eq_refl). f_equal. lia.
    + exfalso. unfold chosen_column in E.
      assert (Hm : index_mod index (length heights) <> None).
      { unfold index_mod. now rewrite Hlen. }
      destruct fillGaps, (vnode_elm x); try contradiction.
      destruct (getShortestColumnIndex_first_min heights) as (j & Ej & _);
        [|congruence].
      intros ->. discriminate.
  - apply IH. now rewrite length_grown_heights.
Qed.

(** X14.  With one column, in either mode, the tagged children all go to
    that column in their input order; with no tagged child there is no
    column at all. *)
Theorem single_column (c : component) (vs : list vnode) :
  column_count (displayColumns c) 1 ->
  unwrap (default [] (slots_default c)) = Some vs ->
  _getChildItemsInColumnsArray c
  = Ok match List.filter has_tag vs with
       | [] => []
       | fs => [Some fs]
       end.
Proof.
  intros Hc Hu.
  rewrite (getChildItems_unwrapped c 1 vs Hc ltac:(reflexivity) Hu). f_equal.
  set (fs := List.filter has_tag vs).
  pose proof (forEach_place_spec (fillGaps c) fs 0 [] (replicate 1 0))
    as (Hget & _ & Hlen).
  specialize (Hget 0%nat). rewrite (bucket_all 0) in Hget.
  2:{ apply length_assignment. }
  2:{ apply assignment_single. reflexivity. }
  destruct fs as [|x fs'] eqn:E; [reflexivity|].
  set (cols := (forEach_place (fillGaps c) (x :: fs') 0 ([], replicate 1 0)).1) in *.
  clearbody cols. unfold array_get, extend in Hget.
  destruct cols as [|e [|e' l]]; cbn in Hget, Hlen; try discriminate; [|lia].
  now subst e.
Qed.

Lemma single_column_witness :
  let vs := [measured 0 5; VNode 1 None None None; child 2] in
  let c := {| cols := VStr "abc"; gutter := VNum (num_of_Z 0);
              fillGaps := true; slots_default := Some vs;
              displayColumns := num_of_Z 1; displayGutter := VNum (num_of_Z 0);
              windowWidth := Some (num_of_Z 800); assigned := [] |} in
  _getChildItemsInColumnsArray c = Ok [Some [measured 0 5; child 2]].
Proof.
  intros vs c. refine (single_column c vs _ eq_refl). reflexivity.
Defined.

Lemma forEach_place_no_heights (fillGaps : bool) (xs : list vnode) (index : nat)
    (cols : columns) :
  forEach_place fillGaps xs index (cols, []) = (cols, []).
Proof.
  revert index; induction xs as [|x xs IH]; intros index; [reflexivity|].
  change (forEach_place fillGaps (x :: xs) index (cols, []))
    with (forEach_place fillGaps xs (S index) (place fillGaps (cols, []) index x)).
  replace (place fillGaps (cols, []) index x) with (cols, @nil Z); [apply IH|].
  unfold place. simpl. now destruct fillGaps, (vnode_elm x).
Qed.

(** X15.  With a column count of 0 the method returns an empty array,
    whatever the children: the column index is then no index, and every
    child is pushed on a property that is no element of the array. *)
Theorem no_column (c : component) (vs : list vnode) :
  column_count (displayColumns c) 0 ->
  unwrap (default [] (slots_default c)) = Some vs ->
  _getChildItemsInColumnsArray c = Ok [].
Proof.
  intros Hc Hu.
  rewrite (getChildItems_unwrapped c 0 vs Hc ltac:(reflexivity) Hu).
  simpl replicate. now rewrite forEach_place_no_heights.
Qed.

Lemma no_column_witness :
  let c := {| cols := VNum (num_of_Z 0); gutter := VNum (num_of_Z 0);
              fillGaps := false; slots_default := Some [child 0; child 1];
              displayColumns := num_of_Z 0; displayGutter := VNum (num_of_Z 0);
              windowWidth := None; assigned := [] |} in
  _getChildItemsInColumnsArray c = Ok [].
Proof.
  intros c. refine (no_column c [child 0; child 1] _ eq_refl). reflexivity.
Defined.

(** ** When the method throws *)

Lemma new_Array_fill0_Ok (dc : num) (hs : list Z) :
  new_Array_fill0 dc = Ok hs ->
  exists n, column_count dc n /\ Z.of_nat n < 2 ^ 32.
Proof.
  unfold new_Array_fill0. destruct dc as [| | |q]; try discriminate.
  destruct (Qred q) as [a b] eqn:Eq.
  destruct ((b =? 1)%positive && (0 <=? a) && (a <? 2 ^ 32)) eqn:E; [|discriminate].
  intros _. apply andb_prop in E as [[Eb Ea]%andb_prop Elt].
  apply Pos.eqb_eq in Eb. subst b.
  exists (Z.to_nat a). unfold column_count. rewrite Z2Nat.id by lia. split; [|lia].
  rewrite <- (Qred_correct q), Eq. reflexivity.
Qed.

Lemma new_Array_fill0_Throw (dc : num) (e : error) :
  new_Array_fill0 dc = Throw e -> e = RangeError.
Proof.
  unfold new_Array_fill0. destruct dc as [| | |q]; try (now intros [= <-]).
  destruct (Qred q) as [a b].
  destruct ((b =? 1)%positive && (0 <=? a) && (a <? 2 ^ 32)); [discriminate|].
  now intros [= <-].
Qed.

(** X16.  The method throws in two cases only: a [RangeError] exactly when
    [displayColumns] is no array length (not an integer from 0 to 2^32 - 1),
    whatever [fillGaps] and the children are; a [TypeError] exactly when it
    is one and the first node of the slot is a [transition-group] without
    children. *)
Theorem getChildItems_throws (c : component) :
  let valid := exists n, column_count (displayColumns c) n /\ Z.of_nat n < 2 ^ 32 in
  let childless := exists node rest,
      slots_default c = Some (node :: rest)
      /\ is_transition_group node = true
      /\ componentOptions_children node = None in
  (_getChildItemsInColumnsArray c = Throw RangeError <-> ~ valid)
  /\ (_getChildItemsInColumnsArray c = Throw TypeError <-> valid /\ childless)
  /\ (_getChildItemsInColumnsArray c <> Throw ReferenceError).
Proof.
  cbv zeta.
  assert (Hunwrap : unwrap (default [] (slots_default c)) = None <->
            exists node rest, slots_default c = Some (node :: rest)
              /\ is_transition_group node = true
              /\ componentOptions_children node = None).
  { destruct (slots_default c) as [[|node rest]|]; simpl.
    - split; [discriminate | intros (? & ? & [=] & _)].
    - destruct (is_transition_group node) eqn:Etg.
      + split.
        * intros H. exists node, rest. auto.
        * intros (n' & r' & [= <- <-] & _ & H). exact H.
      + split; [discriminate|]. intros (n' & r' & [= <- <-] & H & _). congruence.
    - split; [discriminate | intros (? & ? & [=] & _)]. }
  unfold _getChildItemsInColumnsArray, distribute.
  destruct (new_Array_fill0 (displayColumns c)) as [hs|e] eqn:E.
  - pose proof (new_Array_fill0_Ok _ _ E) as Hvalid.
    cbn [mbind result_bind].
    destruct (unwrap (default [] (slots_default c))) as [vs|] eqn:Eu;
      cbn [fmap result_fmap].
    + split; [|split].
      * split; [discriminate | intros H; contradiction].
      * split; [discriminate | intros [_ H]; apply Hunwrap in H; discriminate].
      * discriminate.
    + split; [|split].
      * split; [discriminate | intros H; contradiction].
      * split; [intros _; split; [exact Hvalid | now apply Hunwrap] | reflexivity].
      * discriminate.
  - pose proof (new_Array_fill0_Throw _ _ E) as ->.
    cbn [mbind result_bind fmap result_fmap].
    assert (Hinvalid : ~ exists n, column_count (displayColumns c) n
                                   /\ Z.of_nat n < 2 ^ 32).
    { intros (n & Hc & Hn). rewrite (new_Array_fill0_count _ n Hc Hn) in E.
      discriminate. }
    split; [|split].
    + split; [intros _; exact Hinvalid | reflexivity].
    + split; [discriminate | intros [H _]; contradiction].
    + discriminate.
Qed.

(** ** A column count that is no integer *)

(** X17.  A column count given as a number that is no integer, at least 1
    and below 10^21, is stored as it is by the recalculation, and the next
    distribution throws a [RangeError], whatever the children. *)
Theorem fractional_column_count (c : component) (w : num) (q : Q) :
  cols c = VNum (Fin q) ->
  Qle_bool 1 q = true -> Qle_bool (inject_Z (10 ^ 21)) q = false ->
  (Qden (Qred q) =? 1)%positive = false ->
  exists c',
    _reCalculateColumnCount c w = Done c'
    /\ displayColumns c' = Fin q
    /\ _getChildItemsInColumnsArray c' = Throw RangeError.
Proof.
  intros Hc H1 H21 Hden.
  assert (Hq1 : (1 <= q)%Q) by now apply Qle_bool_iff.
  assert (Hfix : fixed_notation q = true).
  { unfold fixed_notation. rewrite Qabs_pos by (eapply Qle_trans; [|exact Hq1]; easy).
    rewrite H21. simpl negb. rewrite andb_true_r. apply orb_true_intro. right.
    apply Qle_bool_iff. eapply Qle_trans; [|exact Hq1]. easy. }
  assert (Hneg : Qle_bool q (inject_Z (-1)) = false).
  { destruct (Qle_bool q (inject_Z (-1))) eqn:E; [|reflexivity].
    apply Qle_bool_iff in E. exfalso.
    apply (Qle_not_lt _ _ (Qle_trans _ _ _ Hq1 E)). easy. }
  assert (Htruthy : num_truthy (Fin q) = true).
  { simpl. destruct (Qeq_bool q 0) eqn:E; [|reflexivity].
    apply Qeq_bool_iff in E. rewrite E in Hq1. exfalso. now apply Hq1. }
  unfold _reCalculateColumnCount. rewrite Hc.
  unfold breakpointValue, parseInt, parseInt_num. rewrite Hfix.
  cbn [mbind result_bind num_of_pint]. rewrite num_lt_Z, Qtrunc_above, Hneg.
  cbn [negb mbind result_bind Number]. unfold num_or. rewrite Htruthy.
  unfold Math_max, num_of_Z. change (inject_Z 1) with 1%Q. rewrite H1.
  eexists; split; [reflexivity|]. split; [reflexivity|].
  unfold _getChildItemsInColumnsArray, distribute, new_Array_fill0.
  cbn [displayColumns set_displayColumns].
  destruct (Qred q) as [a b]. cbn [Qden] in Hden. rewrite Hden. reflexivity.
Qed.

Lemma fractional_column_count_witness :
  let c := data (VNum (Fin (5 # 2))) (VNum (num_of_Z 0)) false
             (Some [child 0; child 1]) in
  exists c',
    _reCalculateColumnCount c (num_of_Z 800) = Done c'
    /\ displayColumns c' = Fin (5 # 2)
    /\ _getChildItemsInColumnsArray c' = Throw RangeError.
Proof.
  intros c.
  apply (fractional_column_count c (num_of_Z 800) (5 # 2)); reflexivity.
Defined.

(** * [render] *)

(** ** The keys of the columns *)

Lemma append_cancel_l (s t t' : string) :
  (s ++ t)%string = (s ++ t')%string -> t = t'.
Proof. induction s as [|a s IH]; simpl; [auto|]. intros [= H]. auto. Qed.

Lemma take_digits_uint_dash (d : Decimal.uint) (s : string) :
  take_digits 10 (NilEmpty.string_of_uint d ++ String "-" s)%string
  = (udigits d, String "-" s).
Proof. induction d; simpl; rewrite ?IHd; reflexivity. Qed.

Lemma strip_hex_uint_dash (d : Decimal.uint) (s : string) :
  strip_hex (NilEmpty.string_of_uint d ++ String "-" s)%string
  = (10, (NilEmpty.string_of_uint d ++ String "-" s)%string).
Proof. destruct d as [|d|d|d|d|d|d|d|d|d|d]; try reflexivity; destruct d; reflexivity. Qed.

(** [parseInt] reads the index back from a key. *)
Lemma parseInt_str_numeral_dash (n : nat) (s : string) :
  parseInt_str (numeral (Z.of_nat n) ++ String "-" s)%string = Some (Z.of_nat n).
Proof.
  destruct (Z.of_nat n) as [|p|p] eqn:E; [reflexivity | | lia].
  unfold numeral. simpl NilZero.string_of_int. rewrite string_of_uint_pos.
  pose proof (DecimalPos.Unsigned.of_to p) as Hp.
  pose proof (int_of_digits_uint (Pos.to_uint p)) as Hd.
  rewrite Hp in Hd. simpl in Hd.
  unfold parseInt_str.
  assert (Hs : skip_ws (NilEmpty.string_of_uint (Pos.to_uint p) ++ String "-" s)%string
               = (NilEmpty.string_of_uint (Pos.to_uint p) ++ String "-" s)%string
               /\ strip_sign (NilEmpty.string_of_uint (Pos.to_uint p) ++ String "-" s)%string
                  = (false, (NilEmpty.string_of_uint (Pos.to_uint p) ++ String "-" s)%string)).
  { destruct (Pos.to_uint p); try discriminate Hp; split; reflexivity. }
  destruct Hs as [-> ->]. rewrite strip_hex_uint_dash, take_digits_uint_dash.
  cbn [fst]. destruct (udigits (Pos.to_uint p)) eqn:Eu.
  { vm_compute in Hd. discriminate Hd. }
  now rewrite Hd.
Qed.

(** X18.  The key of a column element tells its index and the number of
    columns apart: two keys are equal only for the same index in arrays of
    the same length. *)
Theorem column_key_injective (i l i' l' : nat) :
  column_key i l = column_key i' l' -> i = i' /\ l = l'.
Proof.
  unfold column_key. intros H.
  assert (Hi : i = i').
  { pose proof (parseInt_str_numeral_dash i (numeral (Z.of_nat l))) as P.
    pose proof (parseInt_str_numeral_dash i' (numeral (Z.of_nat l'))) as P'.
    simpl in H. rewrite H in P. rewrite P in P'. injection P' as P'. lia. }
  subst i'. split; [reflexivity|].
  apply append_cancel_l in H. injection H as H.
  pose proof (parseInt_str_numeral (Z.of_nat l)) as P.
  rewrite H, parseInt_str_numeral in P. injection P as P. lia.
Qed.

Lemma column_key_injective_witness : 3%nat = 3%nat /\ 12%nat = 12%nat.
Proof. apply (column_key_injective 3 12 3 12). reflexivity. Defined.

(** ** The gutter and its unit *)

Lemma lead_big_le (fuel : nat) (n : Z) : 0 <= n -> 0 <= lead_big fuel n <= n.
Proof.
  revert n; induction fuel as [|f IH]; intros n Hn; simpl; [lia|].
  destruct (Z.ltb_spec n 10); [lia|].
  assert (H0 : 0 <= n / 10) by (apply Z.div_pos; lia).
  specialize (IH _ H0).
  assert (n / 10 <= n) by (apply Z.div_le_upper_bound; lia). lia.
Qed.

(** A number that passes for unitless is an integer that prints in fixed
    notation: its text is the numeral of its integer part. *)
Lemma unitless_number (q : Q) :
  isGutterSizeUnitless (VNum (Fin q)) = Ok true ->
  q == inject_Z (Qtrunc q) /\ fixed_notation q = true.
Proof.
  unfold isGutterSizeUnitless, parseInt, parseInt_num, Number.
  cbn [mbind result_bind num_of_pint num_of_Z num_strict_eq].
  destruct (fixed_notation q) eqn:Hfix.
  - intros [= H]. apply Qeq_bool_iff in H. split; [now symmetry | reflexivity].
  - intros [= H]. exfalso. apply Qeq_bool_iff in H.
    destruct q as [n d]. unfold Qeq in H. cbn [Qnum Qden inject_Z] in H.
    unfold fixed_notation in Hfix. apply orb_false_elim in Hfix as [H0 Hrange].
    assert (Hn0 : n <> 0).
    { intros ->. vm_compute in H0. discriminate H0. }
    set (p := apply_sign (n <? 0) (lead_digit (n # d))) in *.
    assert (Hnp : n = p * Z.pos d) by lia.
    assert (Hp0 : p <> 0) by (intros E; rewrite E in Hnp; lia).
    assert (Habs : Z.abs n = Z.abs p * Z.pos d) by (rewrite Hnp, Z.abs_mul; lia).
    assert (Hbig : 10 ^ 21 <= Z.abs p).
    { apply andb_false_elim in Hrange as [Hr|Hr].
      - exfalso. unfold Qle_bool in Hr. cbn [Qabs Qnum Qden] in Hr.
        apply Z.leb_gt in Hr. nia.
      - apply negb_false_iff in Hr. unfold Qle_bool in Hr.
        cbn [Qabs Qnum Qden inject_Z] in Hr. apply Z.leb_le in Hr. nia. }
    assert (Hlead : lead_digit (n # d) < Z.abs p).
    { unfold lead_digit. cbn [Qnum Qden].
      replace (Z.pos d <=? Z.abs n) with true by (symmetry; apply Z.leb_le; nia).
      rewrite Habs, Z.div_mul by lia.
      cbn [lead_big]. replace (Z.abs p <? 10) with false by lia.
      assert (H10 : 0 <= Z.abs p / 10) by (apply Z.div_pos; lia).
      pose proof (lead_big_le (Z.to_nat (Z.log2 (Z.abs p * Z.pos d)))
                    (Z.abs p / 10) H10) as Hl.
      assert (Z.abs p / 10 < Z.abs p) by (apply Z.div_lt; lia). lia. }
    assert (Hlead0 : 0 <= lead_digit (n # d)).
    { unfold lead_digit. cbn [Qnum Qden].
      replace (Z.pos d <=? Z.abs n) with true by (symmetry; apply Z.leb_le; nia).
      apply lead_big_le. apply Z.div_pos; lia. }
    subst p. unfold apply_sign in *. destruct (n <? 0); lia.
Qed.




(** ** The rendered tree *)

Lemma gutterSizeWithUnit_convertible (g : value) :
  convertible g = true -> exists v, gutterSizeWithUnit g = Ok v.
Proof.
  intros Hg. unfold gutterSizeWithUnit, isGutterSizeUnitless.
  destruct (parseInt_convertible g Hg) as [p ->].
  destruct (Number_convertible g Hg) as [n ->].
  cbn [mbind result_bind].
  destruct (num_strict_eq (num_of_pint p) n); [|eauto].
  destruct g as [| | b | [| | |q] | s | o]; cbn [template mbind result_bind]; eauto.
  simpl in Hg. unfold ToString_obj.
  destruct (assoc "toString" o); [discriminate | simpl; eauto].
Qed.

Section Rendered.
Context {P : Type} (f : list vnode -> nat -> column_element P).
Hypothesis f_children : forall b i, column_children (f b i) = b.

Lemma rendered_children_map (index : nat) (columns : list (option (list vnode))) :
  rendered_children (array_map f index columns) = nodes_of columns.
Proof.
  revert index; induction columns as [|e columns IH]; intros index; [reflexivity|].
  simpl. unfold rendered_children, nodes_of in *. simpl. rewrite IH.
  destruct e as [b|]; simpl; [now rewrite f_children | reflexivity].
Qed.

Lemma length_array_map (index : nat) (columns : list (option (list vnode))) :
  length (array_map f index columns) = length columns.
Proof.
  revert index; induction columns as [|e columns IH]; intros index; [reflexivity|].
  simpl. now rewrite IH.
Qed.

Variable l : nat.
Hypothesis f_key : forall b i, column_key_of (f b i) = column_key i l.

Lemma rendered_keys_from (index : nat) (columns : list (option (list vnode)))
    (k : string) :
  In k (rendered_keys (array_map f index columns)) ->
  exists j, (index <= j)%nat /\ k = column_key j l.
Proof.
  revert index; induction columns as [|e columns IH]; intros index; simpl.
  { intros []. }
  unfold rendered_keys in *. simpl. destruct e as [b|]; simpl.
  - intros [<-|Hin].
    + exists index. split; [lia | apply f_key].
    + destruct (IH (S index) Hin) as (j & Hj & ->). exists j. split; [lia | reflexivity].
  - intros Hin. destruct (IH (S index) Hin) as (j & Hj & ->).
    exists j. split; [lia | reflexivity].
Qed.

Lemma rendered_keys_NoDup (index : nat) (columns : list (option (list vnode))) :
  List.NoDup (rendered_keys (array_map f index columns)).
Proof.
  revert index; induction columns as [|e columns IH]; intros index; simpl.
  { constructor. }
  unfold rendered_keys in *. simpl. destruct e as [b|]; simpl; [|apply IH].
  constructor; [|apply IH].
  intros Hin. apply rendered_keys_from in Hin as (j & Hj & Hk).
  rewrite f_key in Hk. unfold column_key in Hk.
  pose proof (parseInt_str_numeral_dash index (numeral (Z.of_nat l))) as P1.
  pose proof (parseInt_str_numeral_dash j (numeral (Z.of_nat l))) as P2.
  simpl in Hk. rewrite Hk, P2 in P1. injection P1 as P1. lia.
Qed.
End Rendered.

(** X20.  For a column count [n >= 1] (an array length) and a gutter whose
    conversions complete, [render] returns a root with at most [n] column
    elements, under keys that are pairwise distinct, and the children of
    these elements taken together are exactly the tagged children: each one
    is rendered once. *)
Theorem render_conserves_children {P : Type} (props : presentation P)
    (c : component) (n : nat) (vs : list vnode) :
  column_count (displayColumns c) n -> (1 <= n)%nat -> Z.of_nat n < 2 ^ 32 ->
  unwrap (default [] (slots_default c)) = Some vs ->
  convertible (displayGutter c) = true ->
  exists root,
    render props c = Ok root
    /\ Permutation (rendered_children (root_children root))
         (List.filter has_tag vs)
    /\ List.NoDup (rendered_keys (root_children root))
    /\ (length (root_children root) <= n)%nat.
Proof.
  intros Hc Hn Hlt Hu Hg. unfold render.
  rewrite (getChildItems_unwrapped c n vs) by assumption.
  destruct (gutterSizeWithUnit_convertible _ Hg) as [g ->].
  cbn [mbind result_bind]. eexists; split; [reflexivity|].
  cbn [root_children].
  set (columns := (forEach_place (fillGaps c) (List.filter has_tag vs) 0
                     ([], replicate n 0)).1).
  split; [|split].
  - rewrite rendered_children_map by reflexivity. unfold columns.
    rewrite forEach_place_nodes; [reflexivity|].
    destruct n; [lia | discriminate].
  - apply (rendered_keys_NoDup _ (length columns)). reflexivity.
  - rewrite length_array_map.
    pose proof (forEach_place_spec (fillGaps c) (List.filter has_tag vs) 0 []
                  (replicate n 0)) as (_ & _ & Hlen).
    rewrite length_replicate in Hlen. simpl in Hlen. unfold columns. lia.
Qed.

Lemma render_conserves_children_witness :
  let vs := [child 0; VNode 1 None None None; child 2; child 3] in
  let c := {| cols := VNum (num_of_Z 2); gutter := VStr "10px";
              fillGaps := false; slots_default := Some vs;
              displayColumns := num_of_Z 2; displayGutter := VStr "10px";
              windowWidth := Some (num_of_Z 800); assigned := [] |} in
  exists root,
    render (Presentation unit "div" "div" true tt tt) c = Ok root
    /\ Permutation (rendered_children (root_children root))
         [child 0; child 2; child 3]
    /\ List.NoDup (rendered_keys (root_children root))
    /\ (length (root_children root) <= 2)%nat.
Proof.
  intros vs c.
  refine (render_conserves_children _ c 2 vs _ _ _ eq_refl eq_refl).
  - reflexivity.
  - lia.
  - reflexivity.
Defined.

(** * The lifecycle hooks *)

Lemma existsb_eqb_In (n : nat) (l : list nat) :
  existsb (Nat.eqb n) l = true <-> In n l.
Proof.
  rewrite existsb_exists. split.
  - intros (x & Hx & E). apply Nat.eqb_eq in E. now subst.
  - intros H. exists n. split; [exact H | apply Nat.eqb_refl].
Qed.

Lemma removeEventListener_snoc (callback : nat) (listeners : list nat) :
  ~ In callback listeners ->
  removeEventListener callback (listeners ++ [callback]) = listeners.
Proof.
  induction listeners as [|l rest IH]; simpl; intros Hn.
  - now rewrite Nat.eqb_refl.
  - destruct (Nat.eqb_spec callback l) as [->|Hne]; [exfalso; auto|].
    f_equal. apply IH. tauto.
Qed.

(** X21.  On a host with a [window], falsy or not, mounting a component and
    destroying it leaves the [resize] listeners as they were: the listener
    that [mounted] adds is the one [beforeDestroy] removes, and neither hook
    throws.  Mounting registers the listener once, however often it runs. *)
Theorem listener_released (h : host) (uid : nat) (p : page) :
  h <> WindowUnbound ->
  ~ In uid (resize_listeners p) ->
  let m := mounted h uid p in
  let d := beforeDestroy h uid m.1 in
  m.2 = None /\ d.2 = None
  /\ resize_listeners d.1 = resize_listeners p
  /\ resize_listeners (mounted h uid m.1).1 = resize_listeners m.1.
Proof.
  intros Hh Hn. destruct h as [| |w]; [contradiction | |]; cbv zeta; simpl.
  - repeat split.
  - repeat split.
    + unfold addEventListener.
      destruct (existsb (Nat.eqb uid) (resize_listeners p)) eqn:E.
      * apply existsb_eqb_In in E. contradiction.
      * now apply removeEventListener_snoc.
    + unfold addEventListener at 1.
      replace (existsb (Nat.eqb uid) (addEventListener uid (resize_listeners p)))
        with true; [reflexivity|].
      symmetry. apply existsb_eqb_In. unfold addEventListener.
      destruct (existsb (Nat.eqb uid) (resize_listeners p)) eqn:E.
      * now apply existsb_eqb_In.
      * apply in_or_app. right. now left.
Qed.

Lemma listener_released_witness :
  let p := {| resize_listeners := [1; 2]%nat; next_tick := [] |} in
  let m := mounted (Window (num_of_Z 800)) 7 p in
  let d := beforeDestroy (Window (num_of_Z 800)) 7 m.1 in
  m.2 = None /\ d.2 = None
  /\ resize_listeners d.1 = [1; 2]%nat
  /\ resize_listeners (mounted (Window (num_of_Z 800)) 7 m.1).1
     = resize_listeners m.1.
Proof.
  intros p.
  apply (listener_released (Window (num_of_Z 800)) 7 p).
  - discriminate.
  - simpl. intros [H|[H|[]]]; discriminate H.
Defined.

(** * Children that are appended *)

Lemma extend_prefix (b0 : option (list vnode)) (l : list vnode) (b : list vnode) :
  b0 = Some b -> exists b', extend b0 l = Some (b ++ b').
Proof.
  intros ->. unfold extend. destruct l as [|y l].
  - exists []. now rewrite app_nil_r.
  - exists (y :: l). reflexivity.
Qed.

(** X22.  In either mode, children appended to the slot do not move the
    ones that were there: every bucket of the distribution of [vs] is the
    beginning of the bucket of the same index in the distribution of
    [vs ++ ws], the column count and the measured heights being the
    same. *)
Theorem appended_children_keep_columns
    (dc : num) (fillGaps : bool) (vs ws : list vnode)
    (st st' : list (option (list vnode)) * list Z) (j : nat) (b : list vnode) :
  distribute dc fillGaps (Some vs) = Ok st ->
  distribute dc fillGaps (Some (vs ++ ws)) = Ok st' ->
  array_get j st.1 = Some b ->
  exists b', array_get j st'.1 = Some (b ++ b').
Proof.
  unfold distribute.
  destruct (new_Array_fill0 dc) as [hs0|e]; [|discriminate].
  cbn [mbind result_bind]. intros [= <-] [= <-] Hb.
  rewrite List.filter_app, forEach_place_app. rewrite Nat.add_0_l.
  destruct (forEach_place fillGaps (List.filter has_tag vs) 0 ([], hs0))
    as [cols hs] eqn:E.
  pose proof (forEach_place_spec fillGaps (List.filter has_tag ws)
                (length (List.filter has_tag vs)) cols hs) as (Hget & _ & _).
  rewrite Hget. now apply extend_prefix.
Qed.

Lemma appended_children_keep_columns_witness :
  exists b',
    array_get 1 [Some [measured 0 5];
                 Some [measured 1 1; measured 2 1; measured 3 7]]
    = Some ([measured 1 1] ++ b').
Proof.
  apply (appended_children_keep_columns (num_of_Z 2) true
           [measured 0 5; measured 1 1] [measured 2 1; measured 3 7]
           ([Some [measured 0 5]; Some [measured 1 1]], [5; 1])
           ([Some [measured 0 5];
             Some [measured 1 1; measured 2 1; measured 3 7]], [5; 9])
           1 [measured 1 1]); reflexivity.
Defined.
